(** * ddd: DNS DDoS defense -- traffic monitor, detector and IP blocker

    A shallow embedding of the three Go packages that make up the
    admission-control core of the server, and of the request handler
    that drives them:

    - [monitor]  (internal/monitor/traffic.go): per-IP request statistics,
    - [detector] (internal/detector): the four attack signatures,
    - [blocker]  (internal/blocker): blocks and rate limits with expiry,
    - [dns]      (internal/dns/server.go): the handling of one request.

    Conventions.
    - A [time.Time] is a [Z]: the instant in nanoseconds.  Every call of
      [time.Now()] in the source is an explicit argument of the embedded
      function, one argument per call site, in the order of execution.
    - A [time.Duration] and a Go [int] are 64-bit signed integers: a [Z]
      with the wrap-around of each arithmetic operation written out
      ([wrap64]).  The counters of the loops, which count elements of a
      slice and so stay below its length, are incremented without it.
    - A Go [string] is a [string] (a sequence of bytes).
    - A Go [map[string]T] is a [gmap string T]. *)

From Stdlib Require Import ZArith Lia Ascii String.
From stdpp Require Import gmap strings list fin_maps.

Local Open Scope Z_scope.

(** ** Machine integers and time *)

Definition min_int64 : Z := - 2 ^ 63.
Definition max_int64 : Z := 2 ^ 63 - 1.

(** Two's complement wrap-around of a 64-bit signed result. *)
Definition wrap64 (x : Z) : Z := (x + 2 ^ 63) mod 2 ^ 64 - 2 ^ 63.

Definition Nanosecond : Z := 1.
Definition Millisecond : Z := 1000000.
Definition Second : Z := 1000000000.
Definition Minute : Z := 60 * Second.

(** [t.Add(d)], [t.After(u)] and [t.Before(u)] of package time. *)
Definition Add (t d : Z) : Z := t + d.
Definition After (t u : Z) : bool := u <? t.
Definition Before (t u : Z) : bool := t <? u.

(** ** internal/monitor/traffic.go *)

Module monitor.

Record QueryInfo := {
  Domain : string;
  QueryType : string;
  Timestamp : Z
}.

Record IPStats := {
  RequestCount : Z;
  LastRequestTime : Z;
  Queries : list QueryInfo;
  FirstSeen : Z
}.

Record TrafficMonitor := {
  stats : gmap string IPStats
}.

Definition NewTrafficMonitor : TrafficMonitor := {| stats := ∅ |}.

(** The three readings of the clock taken by one [RecordRequest]: the
    one stored in [FirstSeen] (used only when the record is created),
    the one stored in [LastRequestTime] and the one stored in the
    appended query. *)
Record RecordClock := {
  at_first : Z;
  at_last : Z;
  at_query : Z
}.

Definition tick (now : Z) : RecordClock :=
  {| at_first := now; at_last := now; at_query := now |}.

(** [RecordRequest]: the record of [ip] is created when absent, the
    request counter is incremented, and the query is appended after the
    oldest one has been dropped from a buffer that already holds 100. *)
Definition RecordRequest (tm : TrafficMonitor) (ip domain qtype : string)
    (clk : RecordClock) : TrafficMonitor :=
  let st :=
    match stats tm !! ip with
    | Some st => st
    | None => {| RequestCount := 0; LastRequestTime := 0;
                 Queries := []; FirstSeen := at_first clk |}
    end in
  let qs := if (100 <=? Z.of_nat (length (Queries st)))
            then drop 1 (Queries st) else Queries st in
  {| stats :=
       <[ip := {| RequestCount := wrap64 (RequestCount st + 1);
                  LastRequestTime := at_last clk;
                  Queries := qs ++ [{| Domain := domain; QueryType := qtype;
                                       Timestamp := at_query clk |}];
                  FirstSeen := FirstSeen st |}]> (stats tm) |}.

(** [GetIPStats] returns a copy of the record. *)
Definition GetIPStats (tm : TrafficMonitor) (ip : string) : option IPStats :=
  stats tm !! ip.

(** The counting loop shared by the window queries: [count++] for each
    query whose timestamp is after the cutoff. *)
Fixpoint count_after (cutoff : Z) (qs : list QueryInfo) (count : Z) : Z :=
  match qs with
  | [] => count
  | q :: qs' =>
      count_after cutoff qs'
        (if After (Timestamp q) cutoff then count + 1 else count)
  end.

Definition GetRecentRequestCount (tm : TrafficMonitor) (ip : string)
    (duration : Z) (now : Z) : Z :=
  match stats tm !! ip with
  | None => 0
  | Some st =>
      let cutoff := Add now (wrap64 (- duration)) in
      count_after cutoff (Queries st) 0
  end.

(** The collecting loop of [GetRecentQueries]. *)
Fixpoint collect_after (cutoff : Z) (qs recent : list QueryInfo)
    : list QueryInfo :=
  match qs with
  | [] => recent
  | q :: qs' =>
      collect_after cutoff qs'
        (if After (Timestamp q) cutoff then recent ++ [q] else recent)
  end.

Definition GetRecentQueries (tm : TrafficMonitor) (ip : string)
    (duration : Z) (now : Z) : list QueryInfo :=
  match stats tm !! ip with
  | None => []
  | Some st =>
      let cutoff := Add now (wrap64 (- duration)) in
      collect_after cutoff (Queries st) []
  end.

(** [cleanup] deletes the records last touched before the retention
    horizon of 30 minutes. *)
Definition cleanup (tm : TrafficMonitor) (now : Z) : TrafficMonitor :=
  let cutoff := Add now (wrap64 (-30 * Minute)) in
  {| stats := filter (λ kv, Before (LastRequestTime kv.2) cutoff = false)
                     (stats tm) |}.

(** [GetAllStats] copies the counters and drops the query buffers. *)
Definition GetAllStats (tm : TrafficMonitor) : gmap string IPStats :=
  (λ st, {| RequestCount := RequestCount st;
            LastRequestTime := LastRequestTime st;
            Queries := [];
            FirstSeen := FirstSeen st |}) <$> stats tm.

End monitor.

(** ** internal/detector *)

Module detector.
Import monitor.

Record DDoSDetector := {
  rateLimit : Z
}.

Definition NewDDoSDetector (rateLimit : Z) : DDoSDetector :=
  {| rateLimit := rateLimit |}.

Record DetectionResult := {
  IsAttack : bool;
  AttackType : string;
  Severity : string;
  Description : string;
  ShouldBlock : bool
}.

(** One call of [log.LogDDoSDetected(ip, reason, count)]. *)
Record Detected := {
  detected_ip : string;
  detected_reason : string;
  detected_count : Z
}.

(** [float64(a) / float64(b) > n / d] for a constant [n/d] with [0 < d].
    The source compares the IEEE quotient with 0.5, 2 or 5.  Both
    conversions are exact below 2^53, the quotient is correctly rounded,
    and for operands below 2^50 a rational quotient above the constant
    exceeds it by more than half a unit in the last place, so that the
    rounded comparison and the exact one agree.  Division by zero gives
    +Inf for a positive numerator, and -Inf or NaN otherwise. *)
Definition quotient_gt (a b n d : Z) : bool :=
  if 0 <? b then n * b <? a * d
  else if b <? 0 then a * d <? n * b
  else 0 <? a.

(** [domainCounts[q.Domain]++] over the queries.  A count is bounded by
    [len(queries)], so the increment does not overflow. *)
Definition count_domain (counts : gmap string Z) (q : QueryInfo)
    : gmap string Z :=
  <[Domain q := default 0 (counts !! Domain q) + 1]> counts.

Definition domainCounts (queries : list QueryInfo) : gmap string Z :=
  foldl count_domain ∅ queries.

(** The source ranges over the map in an unspecified order and returns
    true at the first entry that qualifies: the result is whether some
    entry qualifies. *)
Definition checkRepeatedQueries (queries : list QueryInfo) : bool :=
  let n := Z.of_nat (length queries) in
  if n <? 20 then false
  else existsb (λ kv : string * Z, quotient_gt kv.2 n 1 2 && (10 <? kv.2))
               (map_to_list (domainCounts queries)).

(** [strings.Split(s, ".")]: the pieces between the dots, always at
    least one. *)
Fixpoint split_dots (s piece : string) : list string :=
  match s with
  | EmptyString => [piece]
  | String c s' =>
      if Ascii.eqb c "."%char then piece :: split_dots s' EmptyString
      else split_dots s' (piece +:+ String c EmptyString)
  end.

Definition Split (s : string) : list string := split_dots s EmptyString.

(** [strings.Join(parts, ".")]. *)
Fixpoint Join (parts : list string) : string :=
  match parts with
  | [] => EmptyString
  | [p] => p
  | p :: rest => p +:+ "." +:+ Join rest
  end.

(** The loop that fills [baseDomains]: a name of at least two labels
    contributes the labels before its last two, joined, to the entry of
    its last two labels, unless that prefix is empty. *)
Definition add_subdomain (baseDomains : gmap string (list string))
    (q : QueryInfo) : gmap string (list string) :=
  let parts := Split (Domain q) in
  let n := length parts in
  if (2 <=? n)%nat then
    let baseDomain := Join (drop (n - 2) parts) in
    let subdomain := Join (take (n - 2) parts) in
    if bool_decide (subdomain = EmptyString) then baseDomains
    else <[baseDomain := default [] (baseDomains !! baseDomain) ++ [subdomain]]>
           baseDomains
  else baseDomains.

(** [looksRandom]: at least 8 bytes, and more than half of them decimal
    digits.  The source counts digits among the decoded runes; a digit
    is a single byte in UTF-8 and no byte of a longer or invalid sequence
    decodes to one, so the count is that of the digit bytes. *)
Definition is_digit (c : ascii) : bool :=
  let n := N.of_nat (nat_of_ascii c) in
  ((48 <=? n) && (n <=? 57))%N.

Fixpoint count_digits (s : string) (digitCount : Z) : Z :=
  match s with
  | EmptyString => digitCount
  | String c s' =>
      count_digits s' (if is_digit c then digitCount + 1 else digitCount)
  end.

Definition looksRandom (s : string) : bool :=
  let n := Z.of_nat (String.length s) in
  if n <? 8 then false
  else quotient_gt (count_digits s 0) n 1 2.

(** The body of the loop over the base domains. *)
Definition suspicious_group (subdomains : list string) : bool :=
  let uniqueSubdomains : gset string := list_to_set subdomains in
  if (20 <? size uniqueSubdomains)%nat then true
  else
    let randomCount :=
      length (List.filter looksRandom (elements uniqueSubdomains)) in
    (10 <? randomCount)%nat.

Definition checkRandomSubdomains (queries : list QueryInfo) : bool :=
  if Z.of_nat (length queries) <? 30 then false
  else
    let baseDomains := foldl add_subdomain ∅ queries in
    existsb (λ kv : string * list string, suspicious_group kv.2)
            (map_to_list baseDomains).

(** [checkQueryBurst]: more than 50 queries after [now - 10s]. *)
Definition checkQueryBurst (queries : list QueryInfo) (now : Z) : bool :=
  if Z.of_nat (length queries) <? 10 then false
  else
    let cutoff := Add now (wrap64 (-10 * Second)) in
    50 <? count_after cutoff queries 0.

Definition calculateSeverity (requestCount limit : Z) : string :=
  if quotient_gt requestCount limit 5 1 then "high"
  else if quotient_gt requestCount limit 2 1 then "medium"
  else "low".

(** The readings of the clock taken by one [AnalyzeTraffic]: by
    [GetRecentRequestCount], by [GetRecentQueries] and by
    [checkQueryBurst].  The later ones are taken only when the earlier
    checks fall through. *)
Record AnalyzeClock := {
  at_count : Z;
  at_queries : Z;
  at_burst : Z
}.

Definition instant (now : Z) : AnalyzeClock :=
  {| at_count := now; at_queries := now; at_burst := now |}.

(** [AnalyzeTraffic]: the verdict, and what is sent to the logger. *)
Definition AnalyzeTraffic (d : DDoSDetector) (ip : string)
    (trafficMonitor : TrafficMonitor) (clk : AnalyzeClock)
    : DetectionResult * list Detected :=
  let recentCount :=
    GetRecentRequestCount trafficMonitor ip (1 * Minute) (at_count clk) in
  if rateLimit d <? recentCount then
    ({| IsAttack := true;
        AttackType := "high_request_rate";
        Severity := calculateSeverity recentCount (rateLimit d);
        Description := "Excessive request rate detected";
        ShouldBlock := wrap64 (rateLimit d * 2) <? recentCount |},
     [{| detected_ip := ip; detected_reason := "high request rate";
         detected_count := recentCount |}])
  else
    let queries :=
      GetRecentQueries trafficMonitor ip (1 * Minute) (at_queries clk) in
    if checkRepeatedQueries queries then
      ({| IsAttack := true;
          AttackType := "repeated_queries";
          Severity := "medium";
          Description := "Repeated queries to same domain detected";
          ShouldBlock := true |},
       [{| detected_ip := ip; detected_reason := "repeated queries";
           detected_count := Z.of_nat (length queries) |}])
    else if checkRandomSubdomains queries then
      ({| IsAttack := true;
          AttackType := "random_subdomain";
          Severity := "high";
          Description := "Random subdomain attack detected";
          ShouldBlock := true |},
       [{| detected_ip := ip; detected_reason := "random subdomain attack";
           detected_count := Z.of_nat (length queries) |}])
    else if checkQueryBurst queries (at_burst clk) then
      ({| IsAttack := true;
          AttackType := "query_burst";
          Severity := "medium";
          Description := "Query burst detected";
          ShouldBlock := false |},
       [{| detected_ip := ip; detected_reason := "query burst";
           detected_count := Z.of_nat (length queries) |}])
    else
      ({| IsAttack := false;
          AttackType := "";
          Severity := "";
          Description := "";
          ShouldBlock := false |}, []).

End detector.

(** ** internal/blocker *)

Module blocker.

Record BlockedIP := {
  IP : string;
  BlockedAt : Z;
  BlockUntil : Z;
  Reason : string;
  BlockCount : Z
}.

Record IPBlocker := {
  blockedIPs : gmap string BlockedIP;
  rateLimitedIPs : gmap string Z;
  blockDuration : Z;
  rateLimitWindow : Z
}.

Definition NewIPBlocker (blockDuration : Z) : IPBlocker :=
  {| blockedIPs := ∅;
     rateLimitedIPs := ∅;
     blockDuration := blockDuration;
     rateLimitWindow := wrap64 (30 * Second) |}.

(** *** The methods run in a state monad over the blocker, the mode in
    which the calling goroutine holds [b.mu], and a trace of what it did
    to the lock, to the two maps and to the logger. *)

Inductive LockMode := Unlocked | RLocked | Locked.

Inductive Field := BlockedIPs | RateLimitedIPs.

Inductive Event :=
| Acquire (mode : LockMode)
| Release (mode : LockMode)
| Read (f : Field) (held : LockMode)
| Mutate (f : Field) (held : LockMode)
| Logged (event ip detail : string).

Record World := {
  self : IPBlocker;
  mu : LockMode;
  trace : list Event
}.

Definition M (A : Type) : Type := World → A * World.

#[export] Instance M_ret : MRet M := λ A a w, (a, w).

#[export] Instance M_bind : MBind M :=
  λ A B k m w, let (a, w') := m w in k a w'.

Definition ret {A} (a : A) : M A := mret a.

Definition emit (ev : Event) : M unit :=
  λ w, (tt, {| self := self w; mu := mu w; trace := trace w ++ [ev] |}).

Definition set_mu (mode : LockMode) : M unit :=
  λ w, (tt, {| self := self w; mu := mode; trace := trace w |}).

Definition held : M LockMode := λ w, (mu w, w).

Definition get : M IPBlocker := λ w, (self w, w).

Definition put (b : IPBlocker) : M unit :=
  λ w, (tt, {| self := b; mu := mu w; trace := trace w |}).

(** [b.mu.RLock(); defer b.mu.RUnlock()] and
    [b.mu.Lock(); defer b.mu.Unlock()] around a method body. *)
Definition locking {A} (mode : LockMode) (body : M A) : M A :=
  emit (Acquire mode) ;; set_mu mode ;;
  a ← body ;
  emit (Release mode) ;; set_mu Unlocked ;;
  ret a.

Definition with_blocked (m : gmap string BlockedIP) (b : IPBlocker)
    : IPBlocker :=
  {| blockedIPs := m;
     rateLimitedIPs := rateLimitedIPs b;
     blockDuration := blockDuration b;
     rateLimitWindow := rateLimitWindow b |}.

Definition with_limited (m : gmap string Z) (b : IPBlocker) : IPBlocker :=
  {| blockedIPs := blockedIPs b;
     rateLimitedIPs := m;
     blockDuration := blockDuration b;
     rateLimitWindow := rateLimitWindow b |}.

(** Reads and writes of the two maps, each recorded with the lock mode
    held at that point. *)
Definition read (f : Field) : M IPBlocker :=
  h ← held ; emit (Read f h) ;; get.

Definition write_blocked (upd : gmap string BlockedIP → gmap string BlockedIP)
    : M unit :=
  h ← held ; emit (Mutate BlockedIPs h) ;;
  b ← get ; put (with_blocked (upd (blockedIPs b)) b).

Definition write_limited (upd : gmap string Z → gmap string Z) : M unit :=
  h ← held ; emit (Mutate RateLimitedIPs h) ;;
  b ← get ; put (with_limited (upd (rateLimitedIPs b)) b).

(** [IsBlocked]: under the read lock; an entry that has expired is
    deleted on the way to the negative answer. *)
Definition IsBlocked (ip : string) (now : Z) : M bool :=
  locking RLocked (
    b ← read BlockedIPs ;
    match blockedIPs b !! ip with
    | Some blocked =>
        if Before now (BlockUntil blocked) then ret true
        else write_blocked (delete ip) ;; ret false
    | None => ret false
    end).

(** [IsRateLimited]: the same for the rate limits. *)
Definition IsRateLimited (ip : string) (now : Z) : M bool :=
  locking RLocked (
    b ← read RateLimitedIPs ;
    match rateLimitedIPs b !! ip with
    | Some limitedUntil =>
        if Before now limitedUntil then ret true
        else write_limited (delete ip) ;; ret false
    | None => ret false
    end).

(** The two readings of the clock taken by [BlockIP]: the one from which
    [blockUntil] is computed, and the one stored in [BlockedAt] when the
    entry is new. *)
Record BlockClock := {
  at_until : Z;
  at_since : Z
}.

Definition moment (now : Z) : BlockClock :=
  {| at_until := now; at_since := now |}.

(** [time.Duration(b.blockDuration) * time.Second]. *)
Definition blockSpan (b : IPBlocker) : Z := wrap64 (blockDuration b * Second).

(** [BlockIP]: under the write lock; an entry that exists, whatever its
    expiry, is extended, counted and given the new reason. *)
Definition BlockIP (ip reason : string) (clk : BlockClock) : M unit :=
  locking Locked (
    b ← read BlockedIPs ;
    let blockUntil := Add (at_until clk) (blockSpan b) in
    match blockedIPs b !! ip with
    | Some blocked =>
        write_blocked
          <[ip := {| IP := IP blocked;
                     BlockedAt := BlockedAt blocked;
                     BlockUntil := blockUntil;
                     Reason := reason;
                     BlockCount := wrap64 (BlockCount blocked + 1) |}]>
    | None =>
        write_blocked
          <[ip := {| IP := ip;
                     BlockedAt := at_since clk;
                     BlockUntil := blockUntil;
                     Reason := reason;
                     BlockCount := 1 |}]>
    end ;;
    emit (Logged "ip_blocked" ip reason) ;;
    emit (Logged "block" ip reason)).

(** [RateLimitIP]: under the write lock. *)
Definition RateLimitIP (ip : string) (now : Z) : M unit :=
  locking Locked (
    b ← get ;
    let limitUntil := Add now (rateLimitWindow b) in
    write_limited <[ip := limitUntil]> ;;
    emit (Logged "ip_rate_limited" ip "") ;;
    emit (Logged "rate_limit" ip "temporary rate limiting applied")).

(** [UnblockIP]: under the write lock, both deletions. *)
Definition UnblockIP (ip : string) : M unit :=
  locking Locked (
    write_blocked (delete ip) ;;
    write_limited (delete ip) ;;
    emit (Logged "unblock" ip "manually unblocked")).

(** [GetBlockedIP] returns a copy of the entry. *)
Definition GetBlockedIP (ip : string) : M (option BlockedIP) :=
  locking RLocked (b ← read BlockedIPs ; ret (blockedIPs b !! ip)).

(** [GetAllBlockedIPs]: the entries not yet expired, in the unspecified
    order of the map. *)
Definition GetAllBlockedIPs (now : Z) : M (list BlockedIP) :=
  locking RLocked (
    b ← read BlockedIPs ;
    ret (List.filter (λ e, Before now (BlockUntil e))
           (snd <$> map_to_list (blockedIPs b)))).

(** [cleanup]: under the write lock, the entries strictly past their
    expiry are deleted from both maps.  The deletions of one loop are
    recorded in the trace as one mutation of its map. *)
Definition cleanup (now : Z) : M unit :=
  locking Locked (
    _ ← read BlockedIPs ;
    write_blocked
      (filter (λ kv : string * BlockedIP, After now (BlockUntil kv.2) = false)) ;;
    _ ← read RateLimitedIPs ;
    write_limited (filter (λ kv : string * Z, After now kv.2 = false))).

(** [GetBlockStats]: the sizes of the two maps. *)
Definition GetBlockStats : M (nat * nat) :=
  locking RLocked (
    b ← read BlockedIPs ;
    b' ← read RateLimitedIPs ;
    ret (size (blockedIPs b), size (rateLimitedIPs b'))).

(** Running a method on a blocker that no goroutine has locked: its
    result and the blocker it leaves, and the trace it produces. *)
Definition start (b : IPBlocker) : World :=
  {| self := b; mu := Unlocked; trace := [] |}.

Definition run {A} (m : M A) (b : IPBlocker) : A * IPBlocker :=
  let (a, w) := m (start b) in (a, self w).

Definition result {A} (m : M A) (b : IPBlocker) : A := (run m b).1.
Definition after {A} (m : M A) (b : IPBlocker) : IPBlocker := (run m b).2.
Definition events {A} (m : M A) (b : IPBlocker) : list Event :=
  trace (m (start b)).2.

(** The lock discipline of a trace: every mutation of a map happens
    while the write lock is held. *)
Definition exclusive (ev : Event) : bool :=
  match ev with
  | Mutate _ Locked => true
  | Mutate _ _ => false
  | _ => true
  end.

Definition mutates (ev : Event) : bool :=
  match ev with
  | Mutate _ _ => true
  | _ => false
  end.

Definition lock_discipline (tr : list Event) : bool := forallb exclusive tr.
Definition read_only (tr : list Event) : bool := negb (existsb mutates tr).

End blocker.


(** ** internal/dns/server.go *)

Module dns.
Import monitor detector blocker.

(** The response codes that the server writes itself. *)
Inductive Rcode := RcodeRefused | RcodeServerFailure.

(** A question of a [dns.Msg]: its name and its 16-bit type. *)
Record Question := {
  Name : string;
  Qtype : Z
}.

(** The components that a [Server] hands its requests to. *)
Record Server := {
  trafficMonitor : TrafficMonitor;
  ddosDetector : DDoSDetector;
  ipBlocker : IPBlocker
}.

(** What one request makes the server do besides updating its
    components: the responses it writes to the client, how long it
    sleeps, the messages it logs and what the detector reports. *)
Record Outcome := {
  written : list Rcode;
  slept : Z;
  logged : list string;
  detected : list Detected
}.

(** The readings of the clock during one request, in the order of the
    calls that take them. *)
Record RequestClock := {
  at_blocked : Z;
  at_limited : Z;
  at_record : RecordClock;
  at_analyze : AnalyzeClock;
  at_block : BlockClock;
  at_rate_limit : Z
}.

(** [strings.TrimSuffix(s, ".")]: one trailing dot is removed. *)
Fixpoint TrimSuffix (s : string) : string :=
  match s with
  | EmptyString => EmptyString
  | String c EmptyString =>
      if Ascii.eqb c "."%char then EmptyString else s
  | String c s' => String c (TrimSuffix s')
  end.

(** [sendRefused] and [sendServerFailure] write one reply with the
    code. *)
Definition sendRefused : list Rcode := [RcodeRefused].
Definition sendServerFailure : list Rcode := [RcodeServerFailure].

Section Handler.

(** The table [dns.TypeToString] of the DNS library, indexed by the
    type of a question; a type that is not in the table gives the empty
    string. *)
Variable TypeToString : Z → string.

(** [handleDNSRequest] for a client whose address [extractClientIP] has
    turned into [clientIP], with the questions of the message and, for
    a request that gets as far as [forwardRequest], what that call
    writes to the client and what it logs.  [forwardRequest] itself is
    not embedded: it exchanges the message with the upstream server,
    and as published it declares a response that it never uses. *)
Definition handleDNSRequest (s : Server) (clientIP : string)
    (questions : list Question) (forwarded : list Rcode * list string)
    (clk : RequestClock)
    : Server * Outcome :=
  let (blocked, b1) := run (IsBlocked clientIP (at_blocked clk)) (ipBlocker s) in
  if blocked then
    ({| trafficMonitor := trafficMonitor s;
        ddosDetector := ddosDetector s;
        ipBlocker := b1 |},
     {| written := sendRefused; slept := 0;
        logged := ["Blocked IP attempted request"]; detected := [] |})
  else
    let (limited, b2) := run (IsRateLimited clientIP (at_limited clk)) b1 in
    let delay := if limited then 500 * Millisecond else 0 in
    let log1 := if limited then ["Rate limited IP request"] else [] in
    match questions with
    | [] =>
        ({| trafficMonitor := trafficMonitor s;
            ddosDetector := ddosDetector s;
            ipBlocker := b2 |},
         {| written := sendRefused; slept := delay;
            logged := log1; detected := [] |})
    | question :: _ =>
        let domain := TrimSuffix (Name question) in
        let qtype := TypeToString (Qtype question) in
        let tm :=
          RecordRequest (trafficMonitor s) clientIP domain qtype
            (at_record clk) in
        let log2 := log1 ++ ["DNS Query"] in
        let (detectionResult, reports) :=
          AnalyzeTraffic (ddosDetector s) clientIP tm (at_analyze clk) in
        if IsAttack detectionResult then
          let log3 := log2 ++ ["Attack detected"] in
          if ShouldBlock detectionResult then
            ({| trafficMonitor := tm;
                ddosDetector := ddosDetector s;
                ipBlocker :=
                  after (BlockIP clientIP (AttackType detectionResult)
                           (at_block clk)) b2 |},
             {| written := sendRefused; slept := delay;
                logged := log3; detected := reports |})
          else
            let (reply, log4) := forwarded in
            ({| trafficMonitor := tm;
                ddosDetector := ddosDetector s;
                ipBlocker :=
                  after (RateLimitIP clientIP (at_rate_limit clk)) b2 |},
             {| written := reply; slept := delay;
                logged := log3 ++ log4; detected := reports |})
        else
          let (reply, log4) := forwarded in
          ({| trafficMonitor := tm;
              ddosDetector := ddosDetector s;
              ipBlocker := b2 |},
           {| written := reply; slept := delay;
              logged := log2 ++ log4; detected := reports |})
    end.

End Handler.

End dns.
(** * Specification-side definitions

    What the claims speak of, stated over the embedding. *)

Import monitor detector blocker.

(** ** Traffic monitor *)

(** The buffer of recent queries held for [ip]; empty when the source
    is unknown. *)
Definition buffer (tm : TrafficMonitor) (ip : string) : list QueryInfo :=
  match stats tm !! ip with
  | Some st => Queries st
  | None => []
  end.

(** One call of [RecordRequest]. *)
Record Request := {
  req_ip : string;
  req_domain : string;
  req_qtype : string;
  req_clock : RecordClock
}.

Definition record (tm : TrafficMonitor) (r : Request) : TrafficMonitor :=
  RecordRequest tm (req_ip r) (req_domain r) (req_qtype r) (req_clock r).

Definition record_all (tm : TrafficMonitor) (rs : list Request)
    : TrafficMonitor :=
  foldl record tm rs.

(** The query that a request leaves in the buffer, and the queries of
    one source among a sequence of requests, in recording order. *)
Definition query_of (r : Request) : QueryInfo :=
  {| Domain := req_domain r; QueryType := req_qtype r;
     Timestamp := at_query (req_clock r) |}.

Definition recorded (ip : string) (rs : list Request) : list QueryInfo :=
  query_of <$> filter (λ r, req_ip r = ip) rs.

(** The [n] most recent elements of a sequence in recording order. *)
Definition newest {A} (n : nat) (l : list A) : list A :=
  drop (length l - n) l.

(** The number of queries of a buffer whose timestamp lies in a window. *)
Definition events_in (window : Z → bool) (qs : list QueryInfo) : nat :=
  length (List.filter (λ q, window (Timestamp q)) qs).

(** The window of the specification, [now - w <= t <= now], and the
    windows of the code: [now - w < t], with or without the upper end. *)
Definition closed_window (now w t : Z) : bool :=
  (now - w <=? t) && (t <=? now).

Definition after_cutoff (now w t : Z) : bool := now - w <? t.

Definition half_open_window (now w t : Z) : bool :=
  (now - w <? t) && (t <=? now).

(** A monitor that has seen one query of ["s"] at instant 0. *)
Definition one_query_at_0 : TrafficMonitor :=
  RecordRequest NewTrafficMonitor "s" "example.com" "A" (tick 0).

(** Two queries of ["s"], stamped 0 and 1; counted one minute after the
    first, only the second one is in the window. *)
Definition two_queries : TrafficMonitor :=
  RecordRequest one_query_at_0 "s" "example.com" "A" (tick 1).


(** ** Detector *)

(** The queries of the last minute as the detector sees them at [now]:
    those of the buffer stamped after [now - 1 minute]. *)
Definition last_minute (tm : TrafficMonitor) (ip : string) (now : Z)
    : list QueryInfo :=
  List.filter (λ q, after_cutoff now Minute (Timestamp q)) (buffer tm ip).

(** How many of the queries ask for [name]. *)
Definition occurrences (name : string) (queries : list QueryInfo) : nat :=
  length (filter (λ q, Domain q = name) queries).

(** The four signatures in the order in which [AnalyzeTraffic] tries
    them, the condition of each on the state of the monitor, and the
    attack type reported for each. *)
Inductive Signature := HighRate | RepeatedQuery | RandomSubdomain | Burst.

Definition priority : list Signature :=
  [HighRate; RepeatedQuery; RandomSubdomain; Burst].

Definition condition (d : DDoSDetector) (ip : string) (tm : TrafficMonitor)
    (clk : AnalyzeClock) (s : Signature) : bool :=
  let queries := GetRecentQueries tm ip (1 * Minute) (at_queries clk) in
  match s with
  | HighRate =>
      rateLimit d <? GetRecentRequestCount tm ip (1 * Minute) (at_count clk)
  | RepeatedQuery => checkRepeatedQueries queries
  | RandomSubdomain => checkRandomSubdomains queries
  | Burst => checkQueryBurst queries (at_burst clk)
  end.

Definition attack_type (s : option Signature) : string :=
  match s with
  | Some HighRate => "high_request_rate"
  | Some RepeatedQuery => "repeated_queries"
  | Some RandomSubdomain => "random_subdomain"
  | Some Burst => "query_burst"
  | None => ""
  end.

(** [n] requests of one source for one name, the first at [t0] and the
    following ones [step] apart. *)
Definition flood (n : nat) (ip domain : string) (t0 step : Z) : list Request :=
  (λ i : nat, {| req_ip := ip; req_domain := domain; req_qtype := "A";
                 req_clock := tick (t0 + Z.of_nat i * step) |}) <$> seq 0 n.

(** The scenario of [TestHighRequestRate]: 150 requests of one source,
    here one millisecond apart, analysed with a limit of 100 within the
    same second. *)
Definition scenario_A : TrafficMonitor :=
  record_all NewTrafficMonitor
    (flood 150 "192.168.1.100" "example.com" 0 Millisecond).

(** A source that meets all four conditions at once under a limit of
    10: 60 requests for one name and 26 requests for as many subdomains
    of one domain, all within a second. *)
Definition subdomain_labels : list string :=
  ["a"; "b"; "c"; "d"; "e"; "f"; "g"; "h"; "i"; "j"; "k"; "l"; "m";
   "n"; "o"; "p"; "q"; "r"; "s"; "t"; "u"; "v"; "w"; "x"; "y"; "z"].

Definition all_at_once : TrafficMonitor :=
  record_all
    (record_all NewTrafficMonitor (flood 60 "10.0.0.1" "www.example.com" 0 1))
    ((λ l, {| req_ip := "10.0.0.1"; req_domain := l +:+ ".example.com";
              req_qtype := "A"; req_clock := tick 100 |}) <$> subdomain_labels).

(** 30 requests of one source for one name under the default limit. *)
Definition scenario_B : TrafficMonitor :=
  record_all NewTrafficMonitor
    (flood 30 "192.168.1.101" "same-domain.com" 0 Millisecond).

(** The events of a source within the last minute as the specification speaks
    of them: among all that were recorded for it, retained in its
    buffer or not. *)
Definition events_of_last_minute (ip : string) (rs : list Request) (now : Z)
    : list QueryInfo :=
  List.filter (λ q, after_cutoff now Minute (Timestamp q)) (recorded ip rs).

(** The condition of the repeated-query signature on a sequence of
    events: at least 20 of them, and some name that has more than half
    of them and more than 10. *)
Definition majority_over_ten (events : list QueryInfo) : Prop :=
  (20 ≤ length events)%nat
  ∧ ∃ name, (length events < 2 * occurrences name events)%nat
            ∧ (10 < occurrences name events)%nat.

(** 30 requests of one source for one name, one millisecond apart. *)
Definition thirty_repeats : list Request :=
  flood 30 "10.0.0.5" "www.example.org" 0 Millisecond.

(** 90 requests of one source, each for a name of its own, followed by
    60 requests for one more name, all one millisecond apart. *)
Definition ninety_names : list Request :=
  (λ i : nat, {| req_ip := "10.0.0.6";
                 req_domain := String (ascii_of_nat (33 + i)) ".com";
                 req_qtype := "A";
                 req_clock := tick (Z.of_nat i * Millisecond) |}) <$> seq 0 90.

Definition diluted_repeats : list Request :=
  ninety_names
  ++ flood 60 "10.0.0.6" "www.example.org" (90 * Millisecond) Millisecond.

(** ** Blocker *)

(** The states of a blocker created with a block duration of [dur]
    seconds, under a clock that does not go back: [reachable dur t b]
    when [b] results from calls of the methods none of which read the
    clock later than [t]. *)
Inductive reachable (dur : Z) : Z → IPBlocker → Prop :=
| reach_new t :
    reachable dur t (NewIPBlocker dur)
| reach_later t t' b :
    reachable dur t b → t <= t' → reachable dur t' b
| reach_IsBlocked t b ip :
    reachable dur t b → reachable dur t (after (IsBlocked ip t) b)
| reach_IsRateLimited t b ip :
    reachable dur t b → reachable dur t (after (IsRateLimited ip t) b)
| reach_BlockIP t t' b ip reason :
    reachable dur t b →
    reachable dur t
      (after (BlockIP ip reason {| at_until := t; at_since := t' |}) b)
| reach_RateLimitIP t b ip :
    reachable dur t b → reachable dur t (after (RateLimitIP ip t) b)
| reach_UnblockIP t b ip :
    reachable dur t b → reachable dur t (after (UnblockIP ip) b)
| reach_cleanup t b :
    reachable dur t b → reachable dur t (after (cleanup t) b).

(** A blocker of duration 300 in which ["s"] was blocked and limited at
    instant 0 and never looked up since. *)
Definition blocked_at_0 : IPBlocker :=
  after (RateLimitIP "s" 0)
    (after (BlockIP "s" "test" (moment 0)) (NewIPBlocker 300)).

(** What holds of every reachable blocker: its duration is the one it
    was created with, no entry expires later than one block span after
    the latest reading of the clock, and the counters are 64-bit. *)
Definition blocker_inv (dur t : Z) (b : IPBlocker) : Prop :=
  blockDuration b = dur
  ∧ ∀ ip e, blockedIPs b !! ip = Some e →
            BlockUntil e <= t + blockSpan b
            ∧ min_int64 <= BlockCount e <= max_int64.

(** Unfolds a method down to its effect on the world. *)
Ltac step_through :=
  unfold result, after, events; unfold run, start;
  unfold IsBlocked, IsRateLimited, BlockIP, RateLimitIP, UnblockIP,
    GetBlockedIP, GetAllBlockedIPs, cleanup, GetBlockStats;
  unfold locking, read, write_blocked, write_limited, emit, set_mu, held,
    get, put, ret;
  unfold mbind, M_bind, mret, M_ret; simpl.


Import dns.

(** ** Further definitions *)

(** The requests of one source among a sequence of requests. *)
Definition requests_of (ip : string) (rs : list Request) : list Request :=
  filter (λ r, req_ip r = ip) rs.

(** The record that a sequence of requests leaves for a source: the
    wrapped number of its requests, the clock of its first and of its
    last request, and the newest 100 of its queries. *)
Definition summary (ip : string) (rs : list Request) : option IPStats :=
  match requests_of ip rs with
  | [] => None
  | first :: _ =>
      Some {| RequestCount := wrap64 (Z.of_nat (length (requests_of ip rs)));
              LastRequestTime :=
                default 0 (at_last ∘ req_clock <$> last (requests_of ip rs));
              Queries := newest 100 (recorded ip rs);
              FirstSeen := at_first (req_clock first) |}
  end.

(** The verdict of [AnalyzeTraffic] when no signature matches. *)
Definition no_attack : DetectionResult :=
  {| IsAttack := false; AttackType := ""; Severity := "";
     Description := ""; ShouldBlock := false |}.

(** A monitor that has seen 30 queries of one source for one name. *)
Definition thirty_queries : TrafficMonitor :=
  record_all NewTrafficMonitor (flood 30 "10.0.0.2" "example.com" 0 1).

(** The number of dots and of decimal digits among the bytes of a
    string. *)
Fixpoint dots (s : string) : nat :=
  match s with
  | EmptyString => 0
  | String c s' => ((if Ascii.eqb c "."%char then 1 else 0) + dots s')%nat
  end.

Fixpoint digits (s : string) : nat :=
  match s with
  | EmptyString => 0
  | String c s' => ((if is_digit c then 1 else 0) + digits s')%nat
  end.

(** What the loop of [checkRandomSubdomains] makes of one name: the
    base domain under which it is grouped and the subdomain it adds,
    or nothing when the name is skipped. *)
Definition split_name (name : string) : option (string * string) :=
  let parts := Split name in
  let n := length parts in
  if (2 <=? n)%nat then
    let subdomain := Join (take (n - 2) parts) in
    if bool_decide (subdomain = EmptyString) then None
    else Some (Join (drop (n - 2) parts), subdomain)
  else None.

(** The subdomains that the queries add under one base domain, in the
    order of the queries. *)
Definition subdomains_of (base : string) (queries : list QueryInfo)
    : list string :=
  omap (λ q, match split_name (Domain q) with
             | Some (b, sub) => if decide (b = base) then Some sub else None
             | None => None
             end) queries.

(** ** Server *)

(** The outcome of a request that is refused before anything is
    recorded because its client is blocked. *)
Definition refused_at_the_door : Outcome :=
  {| written := [RcodeRefused]; slept := 0;
     logged := ["Blocked IP attempted request"]; detected := [] |}.

(** The query that a request with a first question leaves in the
    monitor. *)
Definition query_asked (TypeToString : Z → string) (question : Question)
    (clk : RequestClock) : QueryInfo :=
  {| Domain := TrimSuffix (Name question);
     QueryType := TypeToString (Qtype question);
     Timestamp := at_query (at_record clk) |}.

(** The monitor of the server once the request of [clientIP] with a
    first question has been recorded, and the verdict on it. *)
Definition recorded_monitor (TypeToString : Z → string) (s : Server)
    (clientIP : string) (question : Question) (clk : RequestClock)
    : TrafficMonitor :=
  RecordRequest (trafficMonitor s) clientIP (TrimSuffix (Name question))
    (TypeToString (Qtype question)) (at_record clk).

Definition verdict (TypeToString : Z → string) (s : Server)
    (clientIP : string) (question : Question) (clk : RequestClock)
    : DetectionResult :=
  (AnalyzeTraffic (ddosDetector s) clientIP
     (recorded_monitor TypeToString s clientIP question clk)
     (at_analyze clk)).1.

(** A server with the default limit and block time, a table of types
    that knows type 1, and a clock that reads [t] throughout a
    request. *)
Definition new_server : Server :=
  {| trafficMonitor := NewTrafficMonitor;
     ddosDetector := NewDDoSDetector 100;
     ipBlocker := NewIPBlocker 300 |}.

Definition type_names (qtype : Z) : string :=
  if qtype =? 1 then "A" else "".

Definition all_at (t : Z) : RequestClock :=
  {| at_blocked := t; at_limited := t; at_record := tick t;
     at_analyze := instant t; at_block := moment t; at_rate_limit := t |}.

(** A call of [forwardRequest] that writes nothing and logs nothing. *)
Definition silent : list Rcode * list string := ([], []).

(** The server after [n] requests of one client for one name, one
    nanosecond apart from instant 0, each forwarded silently. *)
Fixpoint after_requests (n : nat) (s : Server) (clientIP name : string)
    (t : Z) : Server :=
  match n with
  | O => s
  | S n' =>
      after_requests n'
        (handleDNSRequest type_names s clientIP
           [{| Name := name; Qtype := 1 |}] silent (all_at t)).1
        clientIP name (t + 1)
  end.

Definition busy_server : Server :=
  after_requests 20 new_server "10.0.0.3" "example.com." 0.

(** A server with a limit of 10 requests per minute. *)
Definition strict_server : Server :=
  {| trafficMonitor := NewTrafficMonitor;
     ddosDetector := NewDDoSDetector 10;
     ipBlocker := NewIPBlocker 300 |}.

(** A new server with a given limit and block time, and the server
    after a sequence of requests of one client, each with the same
    single question, its own clock and its own forwarding. *)
Definition server_of (limit dur : Z) : Server :=
  {| trafficMonitor := NewTrafficMonitor;
     ddosDetector := NewDDoSDetector limit;
     ipBlocker := NewIPBlocker dur |}.

Definition serve_all (TypeToString : Z → string) (clientIP : string)
    (question : Question) (s : Server)
    (calls : list (list Rcode * list string * RequestClock))
    : Server :=
  foldl (λ s call,
           (handleDNSRequest TypeToString s clientIP [question]
              call.1 call.2).1) s calls.

(** The request that such a call records. *)
Definition request_of (TypeToString : Z → string) (clientIP : string)
    (question : Question) (call : list Rcode * list string * RequestClock)
    : Request :=
  {| req_ip := clientIP;
     req_domain := TrimSuffix (Name question);
     req_qtype := TypeToString (Qtype question);
     req_clock := at_record call.2 |}.

(** 19 calls, one nanosecond apart from instant 0. *)
Definition nineteen_calls : list (list Rcode * list string * RequestClock) :=
  (λ i : nat, (silent, all_at (Z.of_nat i))) <$> seq 0 19.
(** * Properties of the traffic monitor *)

Lemma wrap64_id x : min_int64 <= x <= max_int64 → wrap64 x = x.
Proof.
  unfold wrap64, min_int64, max_int64. intros Hx.
  rewrite Z.mod_small; lia.
Qed.

Lemma wrap64_range x : min_int64 <= wrap64 x <= max_int64.
Proof.
  unfold wrap64, min_int64, max_int64.
  pose proof (Z.mod_pos_bound (x + 2 ^ 63) (2 ^ 64) ltac:(lia)). lia.
Qed.

Lemma count_after_spec cutoff qs count :
  count_after cutoff qs count =
  count + Z.of_nat (events_in (λ t, cutoff <? t) qs).
Proof.
  revert count. induction qs as [|q qs IH]; intros count; simpl.
  - unfold events_in. simpl. lia.
  - rewrite IH. unfold events_in, After. simpl.
    destruct (cutoff <? Timestamp q); simpl; lia.
Qed.

Lemma collect_after_spec cutoff qs recent :
  collect_after cutoff qs recent =
  recent ++ List.filter (λ q, cutoff <? Timestamp q) qs.
Proof.
  revert recent. induction qs as [|q qs IH]; intros recent; simpl.
  - by rewrite app_nil_r.
  - rewrite IH. unfold After.
    destruct (cutoff <? Timestamp q); simpl; [by rewrite <- app_assoc | done].
Qed.

Lemma events_in_ext (P Q : Z → bool) qs :
  Forall (λ q, P (Timestamp q) = Q (Timestamp q)) qs →
  events_in P qs = events_in Q qs.
Proof.
  unfold events_in. induction 1 as [|q qs Hq _ IH]; simpl; [done|].
  rewrite Hq. destruct (Q (Timestamp q)); simpl; lia.
Qed.

Lemma recent_count_buffer tm ip w now :
  min_int64 < w <= max_int64 →
  GetRecentRequestCount tm ip w now =
  Z.of_nat (events_in (after_cutoff now w) (buffer tm ip)).
Proof.
  intros Hw. unfold GetRecentRequestCount, buffer.
  destruct (stats tm !! ip) as [st|]; [|done].
  rewrite count_after_spec. unfold Add.
  rewrite wrap64_id by (unfold min_int64, max_int64 in *; lia).
  unfold after_cutoff. f_equal.
Qed.

Lemma recent_queries_buffer tm ip w now :
  min_int64 < w <= max_int64 →
  GetRecentQueries tm ip w now =
  List.filter (λ q, after_cutoff now w (Timestamp q)) (buffer tm ip).
Proof.
  intros Hw. unfold GetRecentQueries, buffer.
  destruct (stats tm !! ip) as [st|]; [|done].
  rewrite collect_after_spec. unfold Add.
  rewrite wrap64_id by (unfold min_int64, max_int64 in *; lia).
  done.
Qed.

(** The count and the list of the recent queries agree when taken at the
    same instant. *)
Lemma recent_count_queries tm ip w now :
  GetRecentRequestCount tm ip w now =
  Z.of_nat (length (GetRecentQueries tm ip w now)).
Proof.
  unfold GetRecentRequestCount, GetRecentQueries.
  destruct (stats tm !! ip) as [st|]; [|done].
  rewrite count_after_spec, collect_after_spec. done.
Qed.

Lemma newest_length {A} n (l : list A) :
  length (newest n l) = (length l `min` n)%nat.
Proof. unfold newest. rewrite length_drop. lia. Qed.

Lemma newest_snoc {A} n (l : list A) x :
  (0 < n)%nat →
  newest n (l ++ [x]) =
  (if (n <=? length (newest n l))%nat then drop 1 (newest n l)
   else newest n l) ++ [x].
Proof.
  intros Hn. rewrite newest_length. unfold newest.
  rewrite length_app. simpl.
  destruct (n <=? length l `min` n)%nat eqn:Hle.
  - apply Nat.leb_le in Hle.
    rewrite drop_drop, drop_app_le by lia.
    do 2 f_equal. lia.
  - apply Nat.leb_gt in Hle.
    replace (length l + 1 - n)%nat with 0%nat by lia.
    replace (length l - n)%nat with 0%nat by lia. done.
Qed.

Lemma buffer_record tm r ip :
  buffer (record tm r) ip =
  if decide (req_ip r = ip) then
    (if (100 <=? length (buffer tm ip))%nat then drop 1 (buffer tm ip)
     else buffer tm ip) ++ [query_of r]
  else buffer tm ip.
Proof.
  unfold buffer, record, RecordRequest. simpl.
  case_decide as Hip.
  - subst ip. rewrite lookup_insert_eq. simpl.
    destruct (stats tm !! req_ip r) as [st|]; simpl.
    + replace (100 <=? Z.of_nat (length (Queries st)))
        with (100 <=? length (Queries st))%nat; [done|].
      destruct (100 <=? length (Queries st))%nat eqn:H.
      * apply Nat.leb_le in H. symmetry. apply Z.leb_le. lia.
      * apply Nat.leb_gt in H. symmetry. apply Z.leb_gt. lia.
    + done.
  - by rewrite lookup_insert_ne.
Qed.

Lemma recorded_snoc ip rs r :
  recorded ip (rs ++ [r]) =
  recorded ip rs ++ (if decide (req_ip r = ip) then [query_of r] else []).
Proof.
  unfold recorded. rewrite filter_app, fmap_app. f_equal.
  rewrite filter_cons, filter_nil. by case_decide.
Qed.

Lemma buffer_record_all rs ip :
  buffer (record_all NewTrafficMonitor rs) ip = newest 100 (recorded ip rs).
Proof.
  induction rs as [|r rs IH] using rev_ind.
  - done.
  - unfold record_all in *. rewrite foldl_app. simpl.
    rewrite buffer_record, recorded_snoc, IH.
    case_decide.
    + rewrite newest_snoc by lia. done.
    + by rewrite app_nil_r.
Qed.

(** The cap is kept by every step, whatever the monitor: by a request
    and by the retention sweep. *)
Lemma cap_record tm r ip :
  (length (buffer tm ip) ≤ 100)%nat →
  (length (buffer (record tm r) ip) ≤ 100)%nat.
Proof.
  intros Hcap. rewrite buffer_record. case_decide as Hip; [|done].
  destruct (100 <=? length (buffer tm ip))%nat eqn:Hfull.
  - rewrite length_app, length_drop. simpl. lia.
  - apply Nat.leb_gt in Hfull. rewrite length_app. simpl. lia.
Qed.

Lemma cap_cleanup tm now ip :
  (length (buffer tm ip) ≤ 100)%nat →
  (length (buffer (monitor.cleanup tm now) ip) ≤ 100)%nat.
Proof.
  unfold buffer, monitor.cleanup. simpl. intros Hcap.
  destruct (filter _ (stats tm) !! ip) as [st|] eqn:Hst; [|simpl; lia].
  apply map_lookup_filter_Some in Hst as [Hst _]. by rewrite Hst in Hcap.
Qed.


(** * Claims about the traffic monitor *)

(** C2, as stated, fails: a query stamped exactly at [now - w] lies in
    the closed interval from [now - w] to [now], and
    [GetRecentRequestCount] does not count it.  Here the only query is
    stamped 0, the window is one minute and the count is taken one
    minute later: the closed window holds one query, the code returns 0. *)
Lemma recent_count_excludes_window_start :
  events_in (closed_window Minute Minute) (buffer one_query_at_0 "s") = 1%nat
  ∧ GetRecentRequestCount one_query_at_0 "s" Minute Minute = 0
  ∧ GetRecentRequestCount one_query_at_0 "s" Minute Minute
    ≠ Z.of_nat (events_in (closed_window Minute Minute)
                  (buffer one_query_at_0 "s")).
Proof. repeat split; vm_compute; congruence. Qed.

(** C2, amended: for every source, window length [w] (a duration above
    the least 64-bit value) and instant [now], [GetRecentRequestCount]
    is the number of retained queries of the source stamped strictly
    after [now - w]; when no retained query is stamped after [now], this
    is the number of those in the half-open interval from [now - w]
    (excluded) to [now] (included), so that a query stamped exactly at
    [now - w] is not counted; for an unknown source it is 0. *)
Theorem recent_count_half_open_window tm ip w now :
  min_int64 < w <= max_int64 →
  GetRecentRequestCount tm ip w now =
    Z.of_nat (events_in (after_cutoff now w) (buffer tm ip))
  ∧ (Forall (λ q, Timestamp q <= now) (buffer tm ip) →
     GetRecentRequestCount tm ip w now =
       Z.of_nat (events_in (half_open_window now w) (buffer tm ip)))
  ∧ (stats tm !! ip = None → GetRecentRequestCount tm ip w now = 0).
Proof.
  intros Hw. split; [by apply recent_count_buffer|]. split.
  - intros Hpast. rewrite recent_count_buffer by done. f_equal.
    apply events_in_ext. eapply Forall_impl; [exact Hpast|].
    intros q Hq. simpl in Hq. unfold after_cutoff, half_open_window.
    replace (Timestamp q <=? now) with true by (symmetry; by apply Z.leb_le).
    by rewrite andb_true_r.
  - intros Hnone. unfold GetRecentRequestCount. by rewrite Hnone.
Qed.

Lemma recent_count_half_open_window_witness :
  min_int64 < Minute <= max_int64
  ∧ GetRecentRequestCount two_queries "s" Minute Minute = 1.
Proof.
  assert (Hw : min_int64 < Minute <= max_int64) by (vm_compute; split; congruence).
  split; [exact Hw|].
  destruct (recent_count_half_open_window two_queries "s" Minute Minute Hw)
    as [Hcount _].
  rewrite Hcount. vm_compute. reflexivity.
Defined.

(** C3: after any sequence of [RecordRequest] calls on a new monitor,
    the buffer of every source holds at most 100 queries, and they are
    exactly the last 100 (or fewer) recorded for that source, in
    recording order; a further request appends its query after dropping
    the oldest one exactly when the buffer is full. *)
Theorem record_keeps_newest_100 (rs : list Request) (ip : string) :
  let tm := record_all NewTrafficMonitor rs in
  (length (buffer tm ip) ≤ 100)%nat
  ∧ buffer tm ip = newest 100 (recorded ip rs)
  ∧ ∀ r, buffer (record tm r) (req_ip r) =
         (if (length (buffer tm (req_ip r)) =? 100)%nat
          then drop 1 (buffer tm (req_ip r))
          else buffer tm (req_ip r)) ++ [query_of r].
Proof.
  simpl. split; [|split].
  - rewrite buffer_record_all, newest_length. lia.
  - apply buffer_record_all.
  - intros r. rewrite buffer_record. rewrite decide_True by done.
    assert (Hcap : (length (buffer (record_all NewTrafficMonitor rs) (req_ip r))
                    ≤ 100)%nat)
      by (rewrite buffer_record_all, newest_length; lia).
    destruct (length _ =? 100)%nat eqn:Hfull.
    + apply Nat.eqb_eq in Hfull. rewrite Hfull. done.
    + apply Nat.eqb_neq in Hfull.
      replace (100 <=? _)%nat with false; [done|].
      symmetry. apply Nat.leb_gt. lia.
Qed.


(** * Properties of the detector *)

Lemma last_minute_queries tm ip now :
  GetRecentQueries tm ip (1 * Minute) now = last_minute tm ip now.
Proof.
  unfold last_minute. apply recent_queries_buffer.
  vm_compute. split; congruence.
Qed.

Lemma occurrences_cons name q qs :
  occurrences name (q :: qs) =
  ((if decide (Domain q = name) then 1 else 0) + occurrences name qs)%nat.
Proof.
  unfold occurrences. rewrite filter_cons. by case_decide.
Qed.

Lemma occurrences_le name qs : (occurrences name qs ≤ length qs)%nat.
Proof. unfold occurrences. apply length_filter. Qed.

(** The map built by the counting loop holds, for each name, the number
    of its occurrences, and no entry for a name that does not occur. *)
Lemma foldl_count_domain qs (m : gmap string Z) name :
  foldl count_domain m qs !! name =
  if decide (occurrences name qs = 0%nat) then m !! name
  else Some (default 0 (m !! name) + Z.of_nat (occurrences name qs)).
Proof.
  revert m. induction qs as [|q qs IH]; intros m; [done|].
  simpl. rewrite IH, occurrences_cons. unfold count_domain.
  destruct (decide (Domain q = name)) as [->|Hne].
  - rewrite lookup_insert_eq. simpl.
    repeat case_decide; try lia; f_equal; lia.
  - rewrite lookup_insert_ne by done. simpl. done.
Qed.

Lemma domainCounts_lookup qs name :
  domainCounts qs !! name =
  if decide (occurrences name qs = 0%nat) then None
  else Some (Z.of_nat (occurrences name qs)).
Proof.
  unfold domainCounts. rewrite foldl_count_domain, lookup_empty. simpl.
  case_decide; [done|]. f_equal.
Qed.

Lemma checkRepeatedQueries_spec queries :
  checkRepeatedQueries queries = true ↔
  (20 ≤ length queries)%nat
  ∧ ∃ name, (length queries < 2 * occurrences name queries)%nat
            ∧ (10 < occurrences name queries)%nat.
Proof.
  unfold checkRepeatedQueries.
  destruct (Z.of_nat (length queries) <? 20) eqn:Hlen.
  - apply Z.ltb_lt in Hlen. split; [done|]. intros [? _]. lia.
  - apply Z.ltb_ge in Hlen. rewrite existsb_exists. split.
    + intros [[name c] [Hin Hc]]. split; [lia|]. exists name.
      apply list_elem_of_In, elem_of_map_to_list in Hin.
      rewrite domainCounts_lookup in Hin. case_decide; [done|].
      injection Hin as <-. simpl in Hc.
      apply andb_true_iff in Hc as [Hhalf Hten].
      unfold quotient_gt in Hhalf.
      replace (0 <? Z.of_nat (length queries)) with true in Hhalf
        by (symmetry; apply Z.ltb_lt; lia).
      apply Z.ltb_lt in Hhalf, Hten. lia.
    + intros [_ (name & Hhalf & Hten)].
      exists (name, Z.of_nat (occurrences name queries)). split.
      * apply list_elem_of_In, elem_of_map_to_list.
        rewrite domainCounts_lookup. rewrite decide_False by lia. done.
      * simpl. apply andb_true_iff. unfold quotient_gt.
        replace (0 <? Z.of_nat (length queries)) with true
          by (symmetry; apply Z.ltb_lt; lia).
        split; apply Z.ltb_lt; lia.
Qed.

(** The verdict is that of the first signature, in the order of
    [priority], whose condition holds. *)
Lemma analyze_first_match d ip tm clk :
  AttackType (AnalyzeTraffic d ip tm clk).1 =
  attack_type (List.find (condition d ip tm clk) priority).
Proof.
  unfold AnalyzeTraffic, priority. simpl.
  destruct (rateLimit d <? _); [done|].
  destruct (checkRepeatedQueries _); [done|].
  destruct (checkRandomSubdomains _); [done|].
  destruct (checkQueryBurst _ _); done.
Qed.

(** The number of recent queries never exceeds what the buffer holds. *)
Lemma recent_count_le_buffer tm ip w now :
  GetRecentRequestCount tm ip w now <= Z.of_nat (length (buffer tm ip)).
Proof.
  unfold GetRecentRequestCount, buffer.
  destruct (stats tm !! ip) as [st|]; [|simpl; lia].
  rewrite count_after_spec. unfold events_in.
  pose proof (List.filter_length_le
                (λ q, Add now (wrap64 (- w)) <? Timestamp q) (Queries st)).
  lia.
Qed.

(** With the buffer capped at 100, the first signature cannot hold
    under a limit of 100 or more, whatever was recorded. *)
Lemma high_rate_out_of_reach d ip rs clk :
  100 <= rateLimit d →
  condition d ip (record_all NewTrafficMonitor rs) clk HighRate = false.
Proof.
  intros Hlimit. simpl. apply Z.ltb_ge.
  pose proof (recent_count_le_buffer (record_all NewTrafficMonitor rs) ip
                (1 * Minute) (at_count clk)) as Hle.
  rewrite buffer_record_all, newest_length in Hle. lia.
Qed.

(** * Claims about the detector *)

(** C1: 150 requests of one source within a minute under a limit of
    100.  The code keeps the last 100 queries only, counts 100 recent
    ones, which does not exceed the limit, and goes on to the second
    signature: the verdict is an attack to be blocked, of type
    [repeated_queries] and not [high_request_rate] as
    [TestHighRequestRate] expects. *)
Theorem scenario_A_is_not_high_rate :
  GetRecentRequestCount scenario_A "192.168.1.100" (1 * Minute) Second = 100
  ∧ (AnalyzeTraffic (NewDDoSDetector 100) "192.168.1.100" scenario_A
       (instant Second)).1
    = {| IsAttack := true;
         AttackType := "repeated_queries";
         Severity := "medium";
         Description := "Repeated queries to same domain detected";
         ShouldBlock := true |}.
Proof. split; vm_compute; reflexivity. Qed.

(** C4: the attack type of the verdict is that of the first signature,
    in the order high rate, repeated queries, random subdomains, burst,
    whose condition holds; in particular, when the count of the last
    minute exceeds the limit the verdict is [high_request_rate],
    whatever the other three conditions are. *)
Theorem analyze_priority_order d ip tm clk :
  AttackType (AnalyzeTraffic d ip tm clk).1 =
    attack_type (List.find (condition d ip tm clk) priority)
  ∧ (rateLimit d < GetRecentRequestCount tm ip (1 * Minute) (at_count clk) →
     IsAttack (AnalyzeTraffic d ip tm clk).1 = true
     ∧ AttackType (AnalyzeTraffic d ip tm clk).1 = "high_request_rate").
Proof.
  split; [apply analyze_first_match|].
  intros Hhigh. apply Z.ltb_lt in Hhigh.
  unfold AnalyzeTraffic. rewrite Hhigh. done.
Qed.

Lemma analyze_priority_order_witness :
  let d := NewDDoSDetector 10 in
  let clk := instant 200 in
  (rateLimit d <
     GetRecentRequestCount all_at_once "10.0.0.1" (1 * Minute) (at_count clk))
  ∧ condition d "10.0.0.1" all_at_once clk RepeatedQuery = true
  ∧ condition d "10.0.0.1" all_at_once clk RandomSubdomain = true
  ∧ condition d "10.0.0.1" all_at_once clk Burst = true
  ∧ AttackType (AnalyzeTraffic d "10.0.0.1" all_at_once clk).1
    = "high_request_rate".
Proof.
  intros d clk.
  assert (Hhigh : rateLimit d <
     GetRecentRequestCount all_at_once "10.0.0.1" (1 * Minute) (at_count clk))
    by (vm_compute; reflexivity).
  split; [exact Hhigh|].
  split; [vm_compute; reflexivity|].
  split; [vm_compute; reflexivity|].
  split; [vm_compute; reflexivity|].
  exact (proj2 (proj2 (analyze_priority_order d "10.0.0.1" all_at_once clk)
                  Hhigh)).
Defined.

Lemma occurrences_positive name qs :
  occurrences name qs ≠ 0%nat → ∃ q, q ∈ qs ∧ Domain q = name.
Proof.
  induction qs as [|q qs IH]; [done|].
  rewrite occurrences_cons. case_decide as Hq.
  - intros _. exists q. split; [by left|done].
  - intros Hocc. destruct IH as (q' & Hin & Hname); [done|].
    exists q'. split; [by right|done].
Qed.

(** C7, as stated, fails in both directions.  First, 30 requests for
    one name within a second under a limit of 25: the events of the
    last minute meet the condition of the signature, and the verdict is
    [high_request_rate], of low severity and without a block, since the
    first signature is tried before.  Second, 90 requests for 90 names
    followed by 60 for one name, within a second, under a limit of 100:
    that name has 60 of the 150 events of the last minute, less than
    half, so the condition fails; the buffer retains the newest 100, of
    which it has 60, and the verdict is [repeated_queries]. *)
Lemma repeated_query_claim_fails :
  (majority_over_ten (events_of_last_minute "10.0.0.5" thirty_repeats Second)
   ∧ (AnalyzeTraffic (NewDDoSDetector 25) "10.0.0.5"
        (record_all NewTrafficMonitor thirty_repeats) (instant Second)).1
     = {| IsAttack := true;
          AttackType := "high_request_rate";
          Severity := "low";
          Description := "Excessive request rate detected";
          ShouldBlock := false |})
  ∧ (length (events_of_last_minute "10.0.0.6" diluted_repeats Second)
     = 150%nat
     ∧ ¬ majority_over_ten
           (events_of_last_minute "10.0.0.6" diluted_repeats Second)
     ∧ (AnalyzeTraffic (NewDDoSDetector 100) "10.0.0.6"
          (record_all NewTrafficMonitor diluted_repeats) (instant Second)).1
       = {| IsAttack := true;
            AttackType := "repeated_queries";
            Severity := "medium";
            Description := "Repeated queries to same domain detected";
            ShouldBlock := true |}).
Proof.
  split; [split|split; [|split]].
  - split; [vm_compute; lia|]. exists "www.example.org".
    vm_compute. lia.
  - vm_compute. reflexivity.
  - vm_compute. reflexivity.
  - intros [_ (name & Hhalf & _)].
    set (events := events_of_last_minute "10.0.0.6" diluted_repeats Second)
      in *.
    assert (Hlen : length events = 150%nat) by (vm_compute; reflexivity).
    assert (Hall : forallb (λ q, occurrences (Domain q) events <=? 60)%nat
                     events = true) by (vm_compute; reflexivity).
    destruct (occurrences_positive name events) as (q & Hin & Hname); [lia|].
    rewrite forallb_forall in Hall.
    apply list_elem_of_In, Hall, Nat.leb_le in Hin.
    rewrite Hname in Hin. lia.
  - vm_compute. reflexivity.
Qed.

(** C7, amended: provided the first signature has not matched, the
    second signature fires exactly when the queries of the last minute
    that the buffer of the source retains are at least 20 and some name
    accounts for more than half of them and for more than 10; when it
    fires, the verdict is an attack of type [repeated_queries], of
    medium severity, to be blocked. *)
Theorem repeated_query_signature d ip tm clk :
  let queries := last_minute tm ip (at_queries clk) in
  (condition d ip tm clk RepeatedQuery = true ↔
   (20 ≤ length queries)%nat
   ∧ ∃ name, (length queries < 2 * occurrences name queries)%nat
             ∧ (10 < occurrences name queries)%nat)
  ∧ (condition d ip tm clk HighRate = false →
     condition d ip tm clk RepeatedQuery = true →
     (AnalyzeTraffic d ip tm clk).1
     = {| IsAttack := true;
          AttackType := "repeated_queries";
          Severity := "medium";
          Description := "Repeated queries to same domain detected";
          ShouldBlock := true |})
  ∧ (condition d ip tm clk HighRate = false →
     (AttackType (AnalyzeTraffic d ip tm clk).1 = "repeated_queries" ↔
      (20 ≤ length queries)%nat
      ∧ ∃ name, (length queries < 2 * occurrences name queries)%nat
                ∧ (10 < occurrences name queries)%nat)).
Proof.
  simpl.
  assert (Hspec : checkRepeatedQueries
                    (GetRecentQueries tm ip (1 * Minute) (at_queries clk))
                  = true ↔
                  (20 ≤ length (last_minute tm ip (at_queries clk)))%nat
                  ∧ ∃ name,
                      (length (last_minute tm ip (at_queries clk))
                       < 2 * occurrences name
                               (last_minute tm ip (at_queries clk)))%nat
                      ∧ (10 < occurrences name
                                (last_minute tm ip (at_queries clk)))%nat).
  { rewrite last_minute_queries. apply checkRepeatedQueries_spec. }
  split; [exact Hspec|]. split.
  - intros Hhigh Hrep. unfold AnalyzeTraffic. rewrite Hhigh, Hrep. done.
  - intros Hhigh. rewrite <- Hspec. unfold AnalyzeTraffic. rewrite Hhigh.
    destruct (checkRepeatedQueries _); [done|].
    destruct (checkRandomSubdomains _); [done|].
    destruct (checkQueryBurst _ _); done.
Qed.

Lemma repeated_query_signature_witness :
  let d := NewDDoSDetector 100 in
  let clk := instant Second in
  condition d "192.168.1.101" scenario_B clk HighRate = false
  ∧ condition d "192.168.1.101" scenario_B clk RepeatedQuery = true
  ∧ AttackType (AnalyzeTraffic d "192.168.1.101" scenario_B clk).1
    = "repeated_queries".
Proof.
  intros d clk.
  assert (Hhigh : condition d "192.168.1.101" scenario_B clk HighRate = false)
    by (vm_compute; reflexivity).
  assert (Hrep : condition d "192.168.1.101" scenario_B clk RepeatedQuery = true)
    by (vm_compute; reflexivity).
  split; [exact Hhigh|]. split; [exact Hrep|].
  rewrite (proj1 (proj2 (repeated_query_signature d "192.168.1.101" scenario_B
                           clk)) Hhigh Hrep).
  reflexivity.
Defined.

(** * Properties of the blocker *)

Lemma IsBlocked_run b ip now :
  run (IsBlocked ip now) b =
  match blockedIPs b !! ip with
  | Some e =>
      if Before now (BlockUntil e) then (true, b)
      else (false, with_blocked (delete ip (blockedIPs b)) b)
  | None => (false, b)
  end.
Proof.
  step_through.
  destruct (blockedIPs b !! ip) as [e|]; simpl; [|done].
  destruct (Before now (BlockUntil e)); done.
Qed.

Lemma IsRateLimited_run b ip now :
  run (IsRateLimited ip now) b =
  match rateLimitedIPs b !! ip with
  | Some limitedUntil =>
      if Before now limitedUntil then (true, b)
      else (false, with_limited (delete ip (rateLimitedIPs b)) b)
  | None => (false, b)
  end.
Proof.
  step_through.
  destruct (rateLimitedIPs b !! ip) as [u|]; simpl; [|done].
  destruct (Before now u); done.
Qed.

Lemma BlockIP_after b ip reason clk :
  after (BlockIP ip reason clk) b =
  with_blocked
    (<[ip := match blockedIPs b !! ip with
             | Some e => {| IP := IP e;
                            BlockedAt := BlockedAt e;
                            BlockUntil := at_until clk + blockSpan b;
                            Reason := reason;
                            BlockCount := wrap64 (BlockCount e + 1) |}
             | None => {| IP := ip;
                          BlockedAt := at_since clk;
                          BlockUntil := at_until clk + blockSpan b;
                          Reason := reason;
                          BlockCount := 1 |}
             end]> (blockedIPs b)) b.
Proof.
  step_through. destruct (blockedIPs b !! ip) as [e|]; done.
Qed.

Lemma RateLimitIP_after b ip now :
  after (RateLimitIP ip now) b =
  with_limited (<[ip := now + rateLimitWindow b]> (rateLimitedIPs b)) b.
Proof. by step_through. Qed.

Lemma UnblockIP_after b ip :
  after (UnblockIP ip) b =
  {| blockedIPs := delete ip (blockedIPs b);
     rateLimitedIPs := delete ip (rateLimitedIPs b);
     blockDuration := blockDuration b;
     rateLimitWindow := rateLimitWindow b |}.
Proof. by step_through. Qed.

Lemma cleanup_after b now :
  after (cleanup now) b =
  {| blockedIPs :=
       filter (λ kv : string * BlockedIP, After now (BlockUntil kv.2) = false)
              (blockedIPs b);
     rateLimitedIPs :=
       filter (λ kv : string * Z, After now kv.2 = false) (rateLimitedIPs b);
     blockDuration := blockDuration b;
     rateLimitWindow := rateLimitWindow b |}.
Proof. by step_through. Qed.

(** The methods that take the write lock keep the lock discipline on
    every blocker; the two lookups keep it as long as they find nothing
    expired. *)
Lemma BlockIP_discipline b ip reason clk :
  lock_discipline (events (BlockIP ip reason clk) b) = true.
Proof. step_through. destruct (blockedIPs b !! ip); done. Qed.

Lemma RateLimitIP_discipline b ip now :
  lock_discipline (events (RateLimitIP ip now) b) = true.
Proof. by step_through. Qed.

Lemma UnblockIP_discipline b ip :
  lock_discipline (events (UnblockIP ip) b) = true.
Proof. by step_through. Qed.

Lemma cleanup_discipline b now :
  lock_discipline (events (cleanup now) b) = true.
Proof. by step_through. Qed.

Lemma GetBlockStats_read_only b :
  read_only (events GetBlockStats b) = true.
Proof. by step_through. Qed.

Lemma IsBlocked_events b ip now :
  events (IsBlocked ip now) b =
  match blockedIPs b !! ip with
  | Some e =>
      if Before now (BlockUntil e)
      then [Acquire RLocked; Read BlockedIPs RLocked; Release RLocked]
      else [Acquire RLocked; Read BlockedIPs RLocked;
            Mutate BlockedIPs RLocked; Release RLocked]
  | None => [Acquire RLocked; Read BlockedIPs RLocked; Release RLocked]
  end.
Proof.
  step_through.
  destruct (blockedIPs b !! ip) as [e|]; simpl; [|done].
  destruct (Before now (BlockUntil e)); done.
Qed.

Lemma IsRateLimited_events b ip now :
  events (IsRateLimited ip now) b =
  match rateLimitedIPs b !! ip with
  | Some limitedUntil =>
      if Before now limitedUntil
      then [Acquire RLocked; Read RateLimitedIPs RLocked; Release RLocked]
      else [Acquire RLocked; Read RateLimitedIPs RLocked;
            Mutate RateLimitedIPs RLocked; Release RLocked]
  | None => [Acquire RLocked; Read RateLimitedIPs RLocked; Release RLocked]
  end.
Proof.
  step_through.
  destruct (rateLimitedIPs b !! ip) as [u|]; simpl; [|done].
  destruct (Before now u); done.
Qed.

Lemma reachable_inv dur t b : reachable dur t b → blocker_inv dur t b.
Proof.
  induction 1 as [t|t t' b _ [IHd IH] Hle|t b ip _ [IHd IH]|t b ip _ [IHd IH]
                 |t t' b ip reason _ [IHd IH]|t b ip _ [IHd IH]
                 |t b ip _ [IHd IH]|t b _ [IHd IH]].
  - split; [done|]. intros ip e. simpl. by rewrite lookup_empty.
  - split; [done|]. intros ip e He. destruct (IH ip e He). split; lia.
  - unfold after. rewrite IsBlocked_run.
    destruct (blockedIPs b !! ip) as [e0|] eqn:He0; simpl; [|done].
    destruct (Before t (BlockUntil e0)); simpl; [done|].
    split; [done|]. intros ip' e He. simpl in He.
    apply lookup_delete_Some in He as [_ He]. exact (IH ip' e He).
  - unfold after. rewrite IsRateLimited_run.
    destruct (rateLimitedIPs b !! ip) as [u|]; simpl; [|done].
    destruct (Before t u); done.
  - rewrite BlockIP_after. split; [done|]. intros ip' e. simpl.
    unfold blockSpan at 3. simpl. fold (blockSpan b).
    destruct (decide (ip = ip')) as [<-|Hne].
    + rewrite lookup_insert_eq. intros [= <-].
      destruct (blockedIPs b !! ip) as [e0|]; simpl.
      * split; [lia|apply wrap64_range].
      * split; [lia|]. vm_compute. split; congruence.
    + rewrite lookup_insert_ne by done. apply IH.
  - rewrite RateLimitIP_after. done.
  - rewrite UnblockIP_after. split; [done|]. intros ip' e. simpl.
    intros He. apply lookup_delete_Some in He as [_ He]. exact (IH ip' e He).
  - rewrite cleanup_after. split; [done|]. intros ip' e. simpl.
    intros He. apply map_lookup_filter_Some in He as [He _]. exact (IH ip' e He).
Qed.

(** * Claims about the blocker *)

(** C5: after [BlockIP] at instant [t0] on a blocker whose duration is
    300 seconds, [IsBlocked] 299 seconds later answers true and leaves
    the blocker as it is; 301 seconds later it answers false and
    deletes the entry of the source. *)
Theorem block_expires_after_duration b s reason clk :
  blockDuration b = 300 →
  let t0 := at_until clk in
  let b1 := after (BlockIP s reason clk) b in
  run (IsBlocked s (t0 + 299 * Second)) b1 = (true, b1)
  ∧ result (IsBlocked s (t0 + 301 * Second)) b1 = false
  ∧ blockedIPs (after (IsBlocked s (t0 + 301 * Second)) b1) !! s = None.
Proof.
  intros Hdur t0 b1.
  assert (Hspan : blockSpan b = 300 * Second)
    by (unfold blockSpan; rewrite Hdur; vm_compute; reflexivity).
  assert (∃ e, blockedIPs b1 !! s = Some e ∧ BlockUntil e = t0 + 300 * Second)
    as (e & He & Huntil).
  { unfold b1. rewrite BlockIP_after. simpl. rewrite lookup_insert_eq.
    eexists. split; [done|]. rewrite Hspan.
    destruct (blockedIPs b !! s); done. }
  unfold result, after. rewrite !IsBlocked_run, He, Huntil. unfold Before.
  replace (t0 + 299 * Second <? t0 + 300 * Second) with true
    by (symmetry; apply Z.ltb_lt; unfold Second; lia).
  replace (t0 + 301 * Second <? t0 + 300 * Second) with false
    by (symmetry; apply Z.ltb_ge; unfold Second; lia).
  simpl. split; [done|]. split; [done|]. apply lookup_delete_eq.
Qed.

Lemma block_expires_after_duration_witness :
  blockDuration (NewIPBlocker 300) = 300
  ∧ (let b1 := after (BlockIP "s" "test" (moment 0)) (NewIPBlocker 300) in
     run (IsBlocked "s" (0 + 299 * Second)) b1 = (true, b1)
     ∧ result (IsBlocked "s" (0 + 301 * Second)) b1 = false
     ∧ blockedIPs (after (IsBlocked "s" (0 + 301 * Second)) b1) !! "s" = None).
Proof.
  split; [reflexivity|].
  exact (block_expires_after_duration (NewIPBlocker 300) "s" "test" (moment 0)
           eq_refl).
Defined.

(** C6: on a blocker reached under a clock that does not go back, a
    [BlockIP] for a source that has an entry (active or not) adds one
    to its count, as long as the counter is below the largest 64-bit
    value, sets its expiry to the instant of the call plus the block
    span, and that expiry is not earlier than the one it replaces. *)
Theorem block_escalates_monotonically dur t b ip reason clk e :
  reachable dur t b →
  t <= at_until clk →
  blockedIPs b !! ip = Some e →
  BlockCount e < max_int64 →
  ∃ e', blockedIPs (after (BlockIP ip reason clk) b) !! ip = Some e'
        ∧ BlockCount e' = BlockCount e + 1
        ∧ BlockUntil e' = at_until clk + blockSpan b
        ∧ BlockUntil e <= BlockUntil e'.
Proof.
  intros Hreach Hclock He Hcount.
  destruct (reachable_inv _ _ _ Hreach) as [_ Hinv].
  destruct (Hinv ip e He) as [Huntil Hrange].
  rewrite BlockIP_after. simpl. rewrite lookup_insert_eq, He.
  eexists. split; [done|]. simpl.
  split; [apply wrap64_id; unfold min_int64, max_int64 in *; lia|].
  split; [done|lia].
Qed.

Lemma block_escalates_monotonically_witness :
  reachable 300 0 blocked_at_0
  ∧ (∃ e', blockedIPs (after (BlockIP "s" "again" (moment 5)) blocked_at_0)
             !! "s" = Some e'
           ∧ BlockCount e' = 2
           ∧ BlockUntil e' = 5 + 300 * Second).
Proof.
  assert (Hreach : reachable 300 0 blocked_at_0).
  { apply reach_RateLimitIP. apply (reach_BlockIP 300 0 0). apply reach_new. }
  split; [exact Hreach|].
  destruct (block_escalates_monotonically 300 0 blocked_at_0 "s" "again"
              (moment 5)
              {| IP := "s"; BlockedAt := 0; BlockUntil := 300 * Second;
                 Reason := "test"; BlockCount := 1 |}
              Hreach ltac:(simpl; lia) ltac:(vm_compute; reflexivity)
              ltac:(vm_compute; reflexivity))
    as (e' & He' & Hcount & Huntil & _).
  exists e'. split; [exact He'|]. split; [exact Hcount|].
  rewrite Huntil. vm_compute. reflexivity.
Defined.

(** C8: whatever the blocker holds for a source, after [UnblockIP] the
    source is neither blocked nor rate limited at any instant, and a
    second [UnblockIP] leaves the blocker as the first one left it. *)
Theorem unblock_clears_and_is_idempotent b s now :
  result (IsBlocked s now) (after (UnblockIP s) b) = false
  ∧ result (IsRateLimited s now) (after (UnblockIP s) b) = false
  ∧ after (UnblockIP s) (after (UnblockIP s) b) = after (UnblockIP s) b.
Proof.
  unfold result. rewrite IsBlocked_run, IsRateLimited_run, !UnblockIP_after.
  simpl. rewrite !lookup_delete_eq, !delete_delete_eq. done.
Qed.

(** C9: the lookups mutate the maps under the read lock.  On a blocker
    whose entries for ["s"] have expired, [IsBlocked] and
    [IsRateLimited] each delete an entry while holding [b.mu] in read
    mode only. *)
Theorem lookups_mutate_under_read_lock :
  events (IsBlocked "s" (301 * Second)) blocked_at_0
    = [Acquire RLocked; Read BlockedIPs RLocked;
       Mutate BlockedIPs RLocked; Release RLocked]
  ∧ events (IsRateLimited "s" (301 * Second)) blocked_at_0
    = [Acquire RLocked; Read RateLimitedIPs RLocked;
       Mutate RateLimitedIPs RLocked; Release RLocked]
  ∧ lock_discipline (events (IsBlocked "s" (301 * Second)) blocked_at_0)
    = false
  ∧ read_only (events (IsBlocked "s" (301 * Second)) blocked_at_0) = false.
Proof. repeat split; vm_compute; reflexivity. Qed.

(** C10: a [BlockIP] for a source whose entry has expired and is still
    in the map (a lookup at that instant would answer false) keeps the
    entry: its first block time stays, its count is incremented, as
    long as the counter is below the largest 64-bit value, and its
    reason and expiry are replaced. *)
Theorem block_escalates_stale_entry b ip reason clk e :
  blockedIPs b !! ip = Some e →
  BlockUntil e <= at_until clk →
  min_int64 <= BlockCount e < max_int64 →
  result (IsBlocked ip (at_until clk)) b = false
  ∧ blockedIPs (after (BlockIP ip reason clk) b) !! ip
    = Some {| IP := IP e;
              BlockedAt := BlockedAt e;
              BlockUntil := at_until clk + blockSpan b;
              Reason := reason;
              BlockCount := BlockCount e + 1 |}.
Proof.
  intros He Hexpired Hcount. split.
  - unfold result. rewrite IsBlocked_run, He. unfold Before.
    replace (at_until clk <? BlockUntil e) with false
      by (symmetry; apply Z.ltb_ge; lia).
    done.
  - rewrite BlockIP_after. simpl. rewrite lookup_insert_eq, He.
    rewrite wrap64_id by (unfold min_int64, max_int64 in *; lia). done.
Qed.

Lemma block_escalates_stale_entry_witness :
  blockedIPs (after (BlockIP "s" "again" (moment (400 * Second))) blocked_at_0)
    !! "s"
  = Some {| IP := "s"; BlockedAt := 0; BlockUntil := 700 * Second;
            Reason := "again"; BlockCount := 2 |}.
Proof.
  destruct (block_escalates_stale_entry blocked_at_0 "s" "again"
              (moment (400 * Second))
              {| IP := "s"; BlockedAt := 0; BlockUntil := 300 * Second;
                 Reason := "test"; BlockCount := 1 |}
              ltac:(vm_compute; reflexivity)
              ltac:(vm_compute; congruence)
              ltac:(vm_compute; split; congruence))
    as [_ Hentry].
  rewrite Hentry. vm_compute. reflexivity.
Defined.

(** * Further properties of the traffic monitor *)

Lemma wrap64_succ x : wrap64 (wrap64 x + 1) = wrap64 (x + 1).
Proof.
  unfold wrap64. f_equal.
  replace ((x + 2 ^ 63) mod 2 ^ 64 - 2 ^ 63 + 1 + 2 ^ 63)
    with ((x + 2 ^ 63) mod 2 ^ 64 + 1) by lia.
  rewrite Zplus_mod_idemp_l. f_equal. lia.
Qed.

Lemma stats_record tm r ip :
  stats (record tm r) !! ip =
  if decide (req_ip r = ip) then
    Some {| RequestCount :=
              wrap64 (from_option RequestCount 0 (stats tm !! ip) + 1);
            LastRequestTime := at_last (req_clock r);
            Queries := buffer (record tm r) ip;
            FirstSeen :=
              from_option FirstSeen (at_first (req_clock r)) (stats tm !! ip) |}
  else stats tm !! ip.
Proof.
  unfold buffer, record, RecordRequest. simpl.
  case_decide as Hip.
  - subst ip. rewrite lookup_insert_eq.
    destruct (stats tm !! req_ip r) as [st|]; done.
  - by rewrite lookup_insert_ne.
Qed.

(** X1: the record of a source after any sequence of requests on a new
    monitor: none when the source made no request; otherwise its
    counter is the (wrapped) number of all its requests, evicted ones
    included, [FirstSeen] is the clock of its first request,
    [LastRequestTime] that of its last one, and the buffer holds its
    newest 100 queries. *)
Theorem record_all_summary rs ip :
  stats (record_all NewTrafficMonitor rs) !! ip = summary ip rs.
Proof.
  induction rs as [|r rs IH] using rev_ind; [done|].
  unfold record_all in *. rewrite foldl_app. cbn [foldl].
  rewrite stats_record, buffer_record, IH.
  fold (record_all NewTrafficMonitor rs).
  rewrite buffer_record_all.
  unfold summary, requests_of. rewrite recorded_snoc, filter_app.
  rewrite filter_cons, filter_nil.
  case_decide as Hip; [|by rewrite !app_nil_r].
  rewrite <- newest_snoc by lia.
  rewrite last_snoc, length_app. cbn [length fmap option_fmap option_map default].
  destruct (filter _ rs) as [|first rest] eqn:Hreqs; cbn [app from_option].
  - done.
  - cbn [RequestCount FirstSeen]. rewrite wrap64_succ.
    do 3 f_equal. lia.
Qed.

Lemma List_filter_sublist {A} (f : A → bool) (l : list A) :
  List.filter f l `sublist_of` l.
Proof.
  induction l as [|x l IH]; simpl; [done|].
  destruct (f x); [by apply sublist_skip|by apply sublist_cons].
Qed.

(** X2: the queries returned by [GetRecentQueries] are retained queries
    of the source, in the order of the buffer, each stamped after the
    cutoff, and there are as many of them as [GetRecentRequestCount]
    counts at the same instant. *)
Theorem recent_queries_match_count tm ip w now :
  GetRecentRequestCount tm ip w now
    = Z.of_nat (length (GetRecentQueries tm ip w now))
  ∧ GetRecentQueries tm ip w now `sublist_of` buffer tm ip
  ∧ Forall (λ q, Add now (wrap64 (- w)) < Timestamp q)
           (GetRecentQueries tm ip w now).
Proof.
  split; [apply recent_count_queries|].
  unfold GetRecentQueries, buffer.
  destruct (stats tm !! ip) as [st|]; [|by split].
  rewrite collect_after_spec. simpl. split.
  - apply List_filter_sublist.
  - apply Forall_forall. intros q Hq.
    apply list_elem_of_In, List.filter_In in Hq as [_ Hq].
    by apply Z.ltb_lt in Hq.
Qed.

Lemma events_in_mono (P Q : Z → bool) qs :
  (∀ t, P t = true → Q t = true) →
  (events_in P qs ≤ events_in Q qs)%nat.
Proof.
  intros HPQ. unfold events_in.
  induction qs as [|q qs IH]; simpl; [done|].
  destruct (P (Timestamp q)) eqn:HP.
  - rewrite (HPQ _ HP). simpl. lia.
  - destruct (Q (Timestamp q)); simpl; lia.
Qed.

Lemma recent_count_later tm ip w now now' :
  now <= now' →
  GetRecentRequestCount tm ip w now' <= GetRecentRequestCount tm ip w now.
Proof.
  intros Hnow. unfold GetRecentRequestCount.
  destruct (stats tm !! ip) as [st|]; [|done].
  rewrite !count_after_spec.
  apply Z.add_le_mono_l, Nat2Z.inj_le, events_in_mono. intros t.
  unfold Add. rewrite !Z.ltb_lt. lia.
Qed.

(** X3: on a given monitor the count of recent requests grows with the
    window and shrinks as the instant of the count moves on. *)
Theorem recent_count_monotone tm ip w w' now now' :
  min_int64 < w → w <= w' → w' <= max_int64 → now <= now' →
  GetRecentRequestCount tm ip w now <= GetRecentRequestCount tm ip w' now
  ∧ GetRecentRequestCount tm ip w now' <= GetRecentRequestCount tm ip w now.
Proof.
  intros Hlo Hww Hhi Hnow. split; [|by apply recent_count_later].
  rewrite !recent_count_buffer by lia.
  apply Nat2Z.inj_le, events_in_mono; intros t;
    unfold after_cutoff; rewrite !Z.ltb_lt; lia.
Qed.

Lemma recent_count_monotone_witness :
  GetRecentRequestCount two_queries "s" 1 1 = 1
  ∧ GetRecentRequestCount two_queries "s" 2 1 = 2
  ∧ GetRecentRequestCount two_queries "s" 2 2 = 1
  ∧ GetRecentRequestCount two_queries "s" 1 1
    <= GetRecentRequestCount two_queries "s" 2 1
  ∧ GetRecentRequestCount two_queries "s" 2 2
    <= GetRecentRequestCount two_queries "s" 2 1.
Proof.
  split; [vm_compute; reflexivity|].
  split; [vm_compute; reflexivity|].
  split; [vm_compute; reflexivity|].
  split.
  - exact (proj1 (recent_count_monotone two_queries "s" 1 2 1 1
                    ltac:(vm_compute; reflexivity) ltac:(lia)
                    ltac:(vm_compute; congruence) ltac:(lia))).
  - exact (proj2 (recent_count_monotone two_queries "s" 2 2 1 2
                    ltac:(vm_compute; reflexivity) ltac:(lia)
                    ltac:(vm_compute; congruence) ltac:(lia))).
Defined.

Lemma recent_count_nonneg tm ip w now :
  0 <= GetRecentRequestCount tm ip w now.
Proof. rewrite recent_count_queries. lia. Qed.

(** X4: whatever was recorded, the count of recent requests lies
    between 0 and 100, the capacity of the buffer it is taken from; so
    a detector whose limit is 100 or more never reports
    [high_request_rate]. *)
Theorem recent_count_capped rs ip w now d clk :
  0 <= GetRecentRequestCount (record_all NewTrafficMonitor rs) ip w now <= 100
  ∧ (100 <= rateLimit d →
     AttackType (AnalyzeTraffic d ip (record_all NewTrafficMonitor rs) clk).1
     ≠ "high_request_rate").
Proof.
  split.
  - split; [apply recent_count_nonneg|].
    pose proof (recent_count_le_buffer (record_all NewTrafficMonitor rs) ip
                  w now) as Hle.
    rewrite buffer_record_all, newest_length in Hle. lia.
  - intros Hlimit. rewrite analyze_first_match. unfold priority.
    cbn [List.find]. rewrite (high_rate_out_of_reach d ip rs clk Hlimit).
    repeat (destruct (condition _ _ _ _ _); [discriminate|]).
    discriminate.
Qed.

Lemma recent_count_capped_witness :
  100 <= rateLimit (NewDDoSDetector 100)
  ∧ AttackType (AnalyzeTraffic (NewDDoSDetector 100) "192.168.1.100"
                  (record_all NewTrafficMonitor
                     (flood 150 "192.168.1.100" "example.com" 0 Millisecond))
                  (instant Second)).1
    ≠ "high_request_rate".
Proof.
  split; [simpl; lia|].
  exact (proj2 (recent_count_capped
                  (flood 150 "192.168.1.100" "example.com" 0 Millisecond)
                  "192.168.1.100" 0 0 (NewDDoSDetector 100) (instant Second))
           ltac:(simpl; lia)).
Defined.

(** X5: the retention sweep keeps a record exactly when its last
    request is not older than 30 minutes, keeps it unchanged, and a
    second sweep at the same instant removes nothing more. *)
Theorem cleanup_keeps_recent tm now ip :
  stats (monitor.cleanup tm now) !! ip
    = match stats tm !! ip with
      | Some st =>
          if LastRequestTime st <? now - 30 * Minute then None else Some st
      | None => None
      end
  ∧ monitor.cleanup (monitor.cleanup tm now) now = monitor.cleanup tm now.
Proof.
  unfold monitor.cleanup. cbn [stats]. split.
  - replace (Add now (wrap64 (-30 * Minute))) with (now - 30 * Minute)
      by (unfold Add; rewrite wrap64_id; [lia|vm_compute; split; congruence]).
    unfold Before.
    destruct (stats tm !! ip) as [st|] eqn:Hst.
    + destruct (LastRequestTime st <? now - 30 * Minute) eqn:Hold.
      * apply map_lookup_filter_None. right. intros st' Hst'.
        rewrite Hst in Hst'. injection Hst' as <-. simpl. congruence.
      * apply map_lookup_filter_Some. done.
    + apply map_lookup_filter_None. by left.
  - f_equal. rewrite map_filter_filter. apply map_filter_ext.
    intros i st _. tauto.
Qed.

(** * Further properties of the detector *)

Lemma checks_on_few_queries queries now :
  (length queries < 10)%nat →
  checkRepeatedQueries queries = false
  ∧ checkRandomSubdomains queries = false
  ∧ checkQueryBurst queries now = false.
Proof.
  intros Hfew.
  unfold checkRepeatedQueries, checkRandomSubdomains, checkQueryBurst.
  replace (Z.of_nat (length queries) <? 20) with true
    by (symmetry; apply Z.ltb_lt; lia).
  replace (Z.of_nat (length queries) <? 30) with true
    by (symmetry; apply Z.ltb_lt; lia).
  replace (Z.of_nat (length queries) <? 10) with true
    by (symmetry; apply Z.ltb_lt; lia).
  done.
Qed.

(** X6: a source that the monitor does not know is no attack under a
    limit that is not negative, and nothing is logged; under a negative
    limit its count of 0 already exceeds the limit and it is reported
    as [high_request_rate]. *)
Theorem analyze_unknown_source d ip tm clk :
  stats tm !! ip = None →
  (0 <= rateLimit d → AnalyzeTraffic d ip tm clk = (no_attack, []))
  ∧ (rateLimit d < 0 →
     IsAttack (AnalyzeTraffic d ip tm clk).1 = true
     ∧ AttackType (AnalyzeTraffic d ip tm clk).1 = "high_request_rate").
Proof.
  intros Hnone. unfold AnalyzeTraffic, GetRecentRequestCount, GetRecentQueries.
  rewrite Hnone. split.
  - intros Hlimit.
    replace (rateLimit d <? 0) with false by (symmetry; apply Z.ltb_ge; lia).
    done.
  - intros Hlimit.
    replace (rateLimit d <? 0) with true by (symmetry; apply Z.ltb_lt; lia).
    done.
Qed.

Lemma analyze_unknown_source_witness :
  stats NewTrafficMonitor !! "10.0.0.9" = None
  ∧ AnalyzeTraffic (NewDDoSDetector 100) "10.0.0.9" NewTrafficMonitor (instant 0)
    = (no_attack, [])
  ∧ AttackType (AnalyzeTraffic (NewDDoSDetector (-1)) "10.0.0.9"
                  NewTrafficMonitor (instant 0)).1
    = "high_request_rate".
Proof.
  assert (Hnone : stats NewTrafficMonitor !! "10.0.0.9" = None)
    by reflexivity.
  split; [exact Hnone|]. split.
  - exact (proj1 (analyze_unknown_source (NewDDoSDetector 100) "10.0.0.9"
                    NewTrafficMonitor (instant 0) Hnone)
             ltac:(simpl; lia)).
  - exact (proj2 (proj2 (analyze_unknown_source (NewDDoSDetector (-1))
                           "10.0.0.9" NewTrafficMonitor (instant 0) Hnone)
                    ltac:(simpl; lia))).
Defined.

Lemma count_after_le cutoff qs :
  count_after cutoff qs 0 <= Z.of_nat (length qs).
Proof.
  rewrite count_after_spec. unfold events_in.
  pose proof (List.filter_length_le (λ q, cutoff <? Timestamp q) qs). lia.
Qed.

(** X7: the floors of the signatures.  A verdict of [repeated_queries]
    is given on at least 20 queries of the last minute, one of
    [random_subdomain] on at least 30, one of [query_burst] on more
    than 50; and a source within the limit with fewer than 10 recent
    queries is no attack. *)
Theorem analyze_sample_floors d ip tm clk :
  let v := (AnalyzeTraffic d ip tm clk).1 in
  let n := length (GetRecentQueries tm ip (1 * Minute) (at_queries clk)) in
  (AttackType v = "repeated_queries" → (20 ≤ n)%nat)
  ∧ (AttackType v = "random_subdomain" → (30 ≤ n)%nat)
  ∧ (AttackType v = "query_burst" → (50 < n)%nat)
  ∧ (GetRecentRequestCount tm ip (1 * Minute) (at_count clk) <= rateLimit d →
     (n < 10)%nat → v = no_attack).
Proof.
  simpl. unfold AnalyzeTraffic.
  set (queries := GetRecentQueries tm ip (1 * Minute) (at_queries clk)).
  destruct (rateLimit d <? _) eqn:Hhigh.
  { simpl. repeat split; try discriminate.
    intros Hle. apply Z.ltb_lt in Hhigh. lia. }
  destruct (checkRepeatedQueries queries) eqn:Hrep.
  { simpl. repeat split; try discriminate.
    - intros _. by apply checkRepeatedQueries_spec in Hrep as [? _].
    - intros _ Hfew.
      destruct (checks_on_few_queries queries 0 Hfew) as [Hno _]. congruence. }
  destruct (checkRandomSubdomains queries) eqn:Hrand.
  { simpl. repeat split; try discriminate.
    - intros _. unfold checkRandomSubdomains in Hrand.
      destruct (Z.of_nat (length queries) <? 30) eqn:Hlen; [done|].
      apply Z.ltb_ge in Hlen. lia.
    - intros _ Hfew.
      destruct (checks_on_few_queries queries 0 Hfew) as (_ & Hno & _).
      congruence. }
  destruct (checkQueryBurst queries (at_burst clk)) eqn:Hburst.
  { simpl. repeat split; try discriminate.
    - intros _. unfold checkQueryBurst in Hburst.
      destruct (Z.of_nat (length queries) <? 10); [done|].
      apply Z.ltb_lt in Hburst.
      pose proof (count_after_le (Add (at_burst clk) (wrap64 (-10 * Second)))
                    queries).
      lia.
    - intros _ Hfew.
      destruct (checks_on_few_queries queries (at_burst clk) Hfew)
        as (_ & _ & Hno).
      congruence. }
  simpl. repeat split; try discriminate.
Qed.

Lemma analyze_sample_floors_witness :
  let d := NewDDoSDetector 100 in
  let clk := instant Second in
  AttackType (AnalyzeTraffic d "192.168.1.101" scenario_B clk).1
    = "repeated_queries"
  ∧ (20 ≤ length (GetRecentQueries scenario_B "192.168.1.101" (1 * Minute)
                     (at_queries clk)))%nat
  ∧ (AnalyzeTraffic d "10.0.0.9" scenario_B clk).1 = no_attack.
Proof.
  intros d clk.
  assert (Hkind : AttackType (AnalyzeTraffic d "192.168.1.101" scenario_B clk).1
                  = "repeated_queries") by (vm_compute; reflexivity).
  split; [exact Hkind|]. split.
  - exact (proj1 (analyze_sample_floors d "192.168.1.101" scenario_B clk)
             Hkind).
  - exact (proj2 (proj2 (proj2
             (analyze_sample_floors d "10.0.0.9" scenario_B clk)))
             ltac:(vm_compute; congruence) ltac:(vm_compute; lia)).
Defined.

(** X8: the verdict and the log agree.  One detection is logged, for
    the analysed source, exactly when the verdict is an attack; the
    attack type is empty exactly when it is not; and a verdict that asks
    for a block is an attack other than a burst. *)
Theorem analyze_verdict_consistent d ip tm clk :
  let v := (AnalyzeTraffic d ip tm clk).1 in
  let log := (AnalyzeTraffic d ip tm clk).2 in
  length log = (if IsAttack v then 1 else 0)%nat
  ∧ Forall (λ e, detected_ip e = ip) log
  ∧ (IsAttack v = false ↔ AttackType v = "")
  ∧ (ShouldBlock v = true →
     IsAttack v = true ∧ AttackType v ≠ "query_burst").
Proof.
  simpl. unfold AnalyzeTraffic.
  destruct (rateLimit d <? _).
  { simpl. repeat split; try done. by repeat constructor. }
  destruct (checkRepeatedQueries _).
  { simpl. repeat split; try done. by repeat constructor. }
  destruct (checkRandomSubdomains _).
  { simpl. repeat split; try done. by repeat constructor. }
  destruct (checkQueryBurst _ _).
  { simpl. repeat split; try done. by repeat constructor. }
  simpl. repeat split; try done.
Qed.

Lemma analyze_verdict_consistent_witness :
  let v := (AnalyzeTraffic (NewDDoSDetector 100) "192.168.1.101" scenario_B
              (instant Second)).1 in
  ShouldBlock v = true ∧ IsAttack v = true ∧ AttackType v ≠ "query_burst".
Proof.
  intros v.
  assert (Hblock : ShouldBlock v = true) by (vm_compute; reflexivity).
  split; [exact Hblock|].
  exact (proj2 (proj2 (proj2
           (analyze_verdict_consistent (NewDDoSDetector 100) "192.168.1.101"
              scenario_B (instant Second)))) Hblock).
Defined.

Lemma quotient_gt_pos a b n d :
  0 < b → quotient_gt a b n d = (n * b <? a * d).
Proof.
  intros Hb. unfold quotient_gt.
  replace (0 <? b) with true by (symmetry; apply Z.ltb_lt; lia). done.
Qed.

(** X9: a verdict of high request rate under a positive limit whose
    double is a 64-bit integer.  The severity is high above five times
    the limit and low up to twice the limit, and the verdict asks for a
    block exactly when the severity is not low. *)
Theorem high_rate_block_matches_severity d ip tm clk :
  let count := GetRecentRequestCount tm ip (1 * Minute) (at_count clk) in
  let v := (AnalyzeTraffic d ip tm clk).1 in
  0 < rateLimit d → rateLimit d <= 2 ^ 62 - 1 → rateLimit d < count →
  AttackType v = "high_request_rate"
  ∧ (Severity v = "high" ↔ 5 * rateLimit d < count)
  ∧ (Severity v = "low" ↔ count <= 2 * rateLimit d)
  ∧ (ShouldBlock v = true ↔ Severity v ≠ "low").
Proof.
  intros count v Hpos Hmax Hhigh. unfold v, AnalyzeTraffic. fold count.
  replace (rateLimit d <? count) with true by (symmetry; apply Z.ltb_lt; lia).
  cbn [fst AttackType Severity ShouldBlock]. split; [done|].
  rewrite wrap64_id by (unfold min_int64, max_int64; lia).
  unfold calculateSeverity. rewrite !quotient_gt_pos by done.
  destruct (5 * rateLimit d <? count * 1) eqn:H5;
    destruct (2 * rateLimit d <? count * 1) eqn:H2;
    destruct (rateLimit d * 2 <? count) eqn:Hb;
    rewrite ?Z.ltb_lt, ?Z.ltb_ge in *;
    repeat split; intros; try done; try lia.
Qed.

Lemma high_rate_block_matches_severity_witness :
  let d := NewDDoSDetector 10 in
  let v := (AnalyzeTraffic d "10.0.0.1" all_at_once (instant 200)).1 in
  (0 < rateLimit d)
  ∧ AttackType v = "high_request_rate"
  ∧ Severity v = "high"
  ∧ ShouldBlock v = true.
Proof.
  intros d v.
  destruct (high_rate_block_matches_severity d "10.0.0.1" all_at_once
              (instant 200) ltac:(simpl; lia) ltac:(simpl; lia)
              ltac:(vm_compute; reflexivity))
    as (Hkind & Hsev & _ & Hblock).
  split; [simpl; lia|]. split; [exact Hkind|].
  assert (Hhigh : Severity v = "high")
    by (apply Hsev; vm_compute; reflexivity).
  split; [exact Hhigh|].
  apply Hblock. fold v. rewrite Hhigh. discriminate.
Defined.

Lemma occurrences_disjoint n1 n2 qs :
  n1 ≠ n2 → (occurrences n1 qs + occurrences n2 qs ≤ length qs)%nat.
Proof.
  intros Hne. induction qs as [|q qs IH]; [done|].
  rewrite !occurrences_cons. simpl.
  repeat case_decide; try lia. congruence.
Qed.

(** X10: in the second signature the test that the count of the name
    exceeds 10 never decides: on 20 queries or more it holds of every
    name that has more than half of them.  The signature holds exactly
    when there are at least 20 queries and some name has more than half
    of them, and there is at most one such name. *)
Theorem repeated_queries_majority queries :
  (checkRepeatedQueries queries = true ↔
   (20 ≤ length queries)%nat
   ∧ ∃ name, (length queries < 2 * occurrences name queries)%nat)
  ∧ ∀ n1 n2,
      (length queries < 2 * occurrences n1 queries)%nat →
      (length queries < 2 * occurrences n2 queries)%nat →
      n1 = n2.
Proof.
  split.
  - rewrite checkRepeatedQueries_spec. split.
    + intros [Hlen (name & Hhalf & _)]. eauto.
    + intros [Hlen (name & Hhalf)]. split; [done|]. exists name. lia.
  - intros n1 n2 H1 H2. destruct (decide (n1 = n2)) as [|Hne]; [done|].
    pose proof (occurrences_disjoint n1 n2 queries Hne). lia.
Qed.

Lemma repeated_queries_majority_witness :
  (length (buffer thirty_queries "10.0.0.2")
   < 2 * occurrences "example.com" (buffer thirty_queries "10.0.0.2"))%nat
  ∧ checkRepeatedQueries (buffer thirty_queries "10.0.0.2") = true.
Proof.
  assert (Hhalf : (length (buffer thirty_queries "10.0.0.2")
            < 2 * occurrences "example.com" (buffer thirty_queries "10.0.0.2"))%nat)
    by (vm_compute; lia).
  split; [exact Hhalf|].
  apply (proj1 (repeated_queries_majority (buffer thirty_queries "10.0.0.2"))).
  split; [vm_compute; lia|]. exists "example.com". exact Hhalf.
Defined.

(** X11: in the fourth signature the floor of 10 queries never decides:
    the signature holds exactly when more than 50 of the queries are
    stamped within the 10 seconds before the instant of the check. *)
Theorem query_burst_threshold queries now :
  checkQueryBurst queries now = true ↔
  (50 < events_in (after_cutoff now (10 * Second)) queries)%nat.
Proof.
  unfold checkQueryBurst.
  replace (Add now (wrap64 (-10 * Second))) with (now - 10 * Second)
    by (unfold Add; rewrite wrap64_id; [lia|vm_compute; split; congruence]).
  pose proof (count_after_le (now - 10 * Second) queries) as Hle.
  rewrite count_after_spec in *. unfold after_cutoff.
  destruct (Z.of_nat (length queries) <? 10) eqn:Hlen.
  - apply Z.ltb_lt in Hlen. split; [done|]. lia.
  - rewrite Z.ltb_lt. lia.
Qed.



Lemma should_block_is_attack d ip tm clk :
  ShouldBlock (AnalyzeTraffic d ip tm clk).1 = true →
  IsAttack (AnalyzeTraffic d ip tm clk).1 = true.
Proof.
  unfold AnalyzeTraffic.
  destruct (rateLimit d <? _); [done|].
  destruct (checkRepeatedQueries _); [done|].
  destruct (checkRandomSubdomains _); [done|].
  destruct (checkQueryBurst _ _); done.
Qed.

(** * Names, labels and subdomains *)

Lemma append_cons c s t : String c s +:+ t = String c (s +:+ t).
Proof. reflexivity. Qed.

Lemma append_nil_l s : "" +:+ s = s.
Proof. reflexivity. Qed.

Lemma append_nil_r s : s +:+ "" = s.
Proof.
  induction s as [|c s IH]; [done|]. by rewrite append_cons, IH.
Qed.

Lemma append_assoc s1 s2 s3 : (s1 +:+ s2) +:+ s3 = s1 +:+ (s2 +:+ s3).
Proof.
  induction s1 as [|c s1 IH]; [done|]. by rewrite !append_cons, IH.
Qed.

Lemma dots_append s1 s2 : dots (s1 +:+ s2) = (dots s1 + dots s2)%nat.
Proof.
  induction s1 as [|c s1 IH]; [done|].
  rewrite append_cons. simpl. rewrite IH. lia.
Qed.

Lemma split_dots_cons s piece :
  ∃ p rest, split_dots s piece = p :: rest.
Proof.
  revert piece. induction s as [|c s IH]; intros piece; simpl; [eauto|].
  destruct (Ascii.eqb c "."); eauto.
Qed.

Lemma Join_cons p q rest : Join (p :: q :: rest) = p +:+ "." +:+ Join (q :: rest).
Proof. done. Qed.

Lemma Join_split_dots s piece : Join (split_dots s piece) = piece +:+ s.
Proof.
  revert piece. induction s as [|c s IH]; intros piece; simpl.
  - by rewrite append_nil_r.
  - destruct (Ascii.eqb c ".") eqn:Hc.
    + apply Ascii.eqb_eq in Hc as ->.
      destruct (split_dots_cons s "") as (p & rest & Hs).
      pose proof (IH "") as HJ. rewrite Hs in *.
      rewrite Join_cons, HJ. done.
    + rewrite IH, append_assoc. done.
Qed.

Lemma length_split_dots s piece :
  length (split_dots s piece) = S (dots s).
Proof.
  revert piece. induction s as [|c s IH]; intros piece; simpl; [done|].
  destruct (Ascii.eqb c "."); simpl; by rewrite IH.
Qed.

Lemma split_dots_dot_free s piece :
  dots piece = 0%nat →
  Forall (λ p, dots p = 0%nat) (split_dots s piece).
Proof.
  revert piece. induction s as [|c s IH]; intros piece Hpiece; simpl.
  - by constructor.
  - destruct (Ascii.eqb c ".") eqn:Hc.
    + constructor; [done|]. by apply IH.
    + apply IH. rewrite dots_append. simpl. rewrite Hc. lia.
Qed.

(** X13: splitting a name at its dots and joining the pieces with dots
    gives the name back; the pieces are one more than the dots of the
    name, and none of them contains a dot. *)
Theorem split_join_round_trip s :
  Join (Split s) = s
  ∧ length (Split s) = S (dots s)
  ∧ Forall (λ p, dots p = 0%nat) (Split s).
Proof.
  unfold Split. split; [apply Join_split_dots|].
  split; [apply length_split_dots|by apply split_dots_dot_free].
Qed.

Lemma Join_app l1 l2 :
  l1 ≠ [] → l2 ≠ [] → Join (l1 ++ l2) = Join l1 +:+ "." +:+ Join l2.
Proof.
  intros H1 H2. induction l1 as [|p l1 IH]; [done|].
  destruct l1 as [|q l1].
  - destruct l2 as [|r l2]; done.
  - rewrite <- !app_comm_cons, !Join_cons.
    rewrite app_comm_cons, IH by done.
    by rewrite !append_assoc.
Qed.

Lemma dots_Join l :
  Forall (λ p, dots p = 0%nat) l → dots (Join l) = (length l - 1)%nat.
Proof.
  induction 1 as [|p l Hp Hl IH]; [done|].
  destruct l as [|q l]; [simpl; lia|].
  rewrite Join_cons, !dots_append, IH, Hp. simpl. lia.
Qed.

(** X14: the base domain and the subdomain that the third signature
    makes of a name.  A name is grouped only when it has a dot-joined
    prefix before its last two labels: then the base domain has exactly
    one dot, the subdomain is not empty, and the subdomain, a dot and
    the base domain make up the name.  A name with fewer than two dots
    is skipped. *)
Theorem split_name_decomposes name :
  (∀ base sub, split_name name = Some (base, sub) →
     name = sub +:+ "." +:+ base ∧ dots base = 1%nat ∧ sub ≠ "")
  ∧ ((dots name < 2)%nat → split_name name = None).
Proof.
  unfold split_name.
  assert (Hjoin : Join (Split name) = name) by apply Join_split_dots.
  assert (Hlen : length (Split name) = S (dots name))
    by apply length_split_dots.
  assert (Hfree : Forall (λ p, dots p = 0%nat) (Split name))
    by (by apply split_dots_dot_free).
  set (parts := Split name) in *. rewrite Hlen. split.
  - intros base sub Hsome.
    destruct (2 <=? S (dots name))%nat eqn:H2; [|done].
    apply Nat.leb_le in H2.
    case_bool_decide as Hsub; [done|]. injection Hsome as <- <-.
    assert (Htake : take (S (dots name) - 2) parts ≠ []).
    { intros Hnil. rewrite Hnil in Hsub. done. }
    assert (Hdrop : length (drop (S (dots name) - 2) parts) = 2%nat)
      by (rewrite length_drop; lia).
    assert (Hdrop' : drop (S (dots name) - 2) parts ≠ [])
      by (intros Hnil; rewrite Hnil in Hdrop; done).
    split; [|split; [|done]].
    + rewrite <- Join_app by done. by rewrite take_drop.
    + rewrite dots_Join by (by apply Forall_drop).
      change (S (dots name) - 2)%nat with (dots name - 1)%nat in Hdrop.
      by rewrite Hdrop.
  - intros Hfew.
    destruct (2 <=? S (dots name))%nat eqn:H2; [|done].
    apply Nat.leb_le in H2.
    replace (S (dots name) - 2)%nat with 0%nat by lia.
    rewrite take_0. done.
Qed.

Lemma split_name_decomposes_witness :
  split_name "a.b.example.com" = Some ("example.com", "a.b")
  ∧ "a.b.example.com" = "a.b" +:+ "." +:+ "example.com"
  ∧ split_name "example.com" = None.
Proof.
  assert (Hsome : split_name "a.b.example.com" = Some ("example.com", "a.b"))
    by (vm_compute; reflexivity).
  split; [exact Hsome|]. split.
  - exact (proj1 (proj1 (split_name_decomposes "a.b.example.com")
                    "example.com" "a.b" Hsome)).
  - exact (proj2 (split_name_decomposes "example.com")
             ltac:(vm_compute; lia)).
Defined.

Lemma count_digits_spec s digitCount :
  count_digits s digitCount = digitCount + Z.of_nat (digits s).
Proof.
  revert digitCount. induction s as [|c s IH]; intros k; simpl; [lia|].
  rewrite IH. destruct (is_digit c); lia.
Qed.

Lemma digits_le s : (digits s ≤ String.length s)%nat.
Proof.
  induction s as [|c s IH]; simpl; [done|]. destruct (is_digit c); lia.
Qed.

(** X15: a string looks random exactly when it has at least 8 bytes
    and more than half of them are decimal digits; so a string with
    fewer than 5 digits never does. *)
Theorem looksRandom_majority_of_digits s :
  (looksRandom s = true ↔
   (8 ≤ String.length s)%nat ∧ (String.length s < 2 * digits s)%nat)
  ∧ ((digits s < 5)%nat → looksRandom s = false).
Proof.
  assert (Hiff : looksRandom s = true ↔
            (8 ≤ String.length s)%nat ∧ (String.length s < 2 * digits s)%nat).
  { unfold looksRandom. rewrite count_digits_spec.
    destruct (Z.of_nat (String.length s) <? 8) eqn:Hlen.
    - apply Z.ltb_lt in Hlen. split; [done|]. lia.
    - apply Z.ltb_ge in Hlen. rewrite quotient_gt_pos by lia.
      rewrite Z.ltb_lt. lia. }
  split; [exact Hiff|]. intros Hfew.
  apply not_true_is_false. intros Hrand. apply Hiff in Hrand. lia.
Qed.

Lemma looksRandom_majority_of_digits_witness :
  (digits "abc1234" < 5)%nat ∧ looksRandom "abc1234" = false
  ∧ looksRandom "a1234567" = true.
Proof.
  split; [vm_compute; lia|]. split.
  - exact (proj2 (looksRandom_majority_of_digits "abc1234")
             ltac:(vm_compute; lia)).
  - apply (proj1 (looksRandom_majority_of_digits "a1234567")).
    vm_compute. split; lia.
Defined.

(** * The third signature *)

Lemma add_subdomain_split m q :
  add_subdomain m q =
  match split_name (Domain q) with
  | Some (base, sub) => <[base := default [] (m !! base) ++ [sub]]> m
  | None => m
  end.
Proof.
  unfold add_subdomain, split_name.
  destruct (2 <=? length (Split (Domain q)))%nat; [|done].
  by case_bool_decide.
Qed.

Lemma subdomains_of_cons base q qs :
  subdomains_of base (q :: qs) =
  match split_name (Domain q) with
  | Some (b, sub) =>
      if decide (b = base) then sub :: subdomains_of base qs
      else subdomains_of base qs
  | None => subdomains_of base qs
  end.
Proof.
  unfold subdomains_of. simpl.
  destruct (split_name (Domain q)) as [[b sub]|]; [|done].
  by case_decide.
Qed.

(** The map built by the grouping loop holds, under each base domain,
    the subdomains that the queries add to it, in their order, and no
    entry for a base domain that gets none. *)
Lemma foldl_add_subdomain qs (m : gmap string (list string)) base :
  foldl add_subdomain m qs !! base =
  match subdomains_of base qs with
  | [] => m !! base
  | subs => Some (default [] (m !! base) ++ subs)
  end.
Proof.
  revert m. induction qs as [|q qs IH]; intros m; [done|].
  cbn [foldl]. rewrite IH, add_subdomain_split, subdomains_of_cons.
  destruct (split_name (Domain q)) as [[b sub]|]; [|done].
  case_decide as Hb.
  - subst b. rewrite lookup_insert_eq. simpl.
    destruct (subdomains_of base qs) as [|s subs]; [done|].
    by rewrite <- app_assoc.
  - by rewrite lookup_insert_ne.
Qed.

Lemma elements_list_to_set_dups (l : list string) :
  elements (list_to_set l : gset string) ≡ₚ remove_dups l.
Proof.
  apply NoDup_Permutation.
  - apply NoDup_elements.
  - apply NoDup_remove_dups.
  - intros x. by rewrite elem_of_elements, elem_of_list_to_set,
      elem_of_remove_dups.
Qed.

Lemma List_filter_length_perm {A} (f : A → bool) (l k : list A) :
  l ≡ₚ k → length (List.filter f l) = length (List.filter f k).
Proof.
  induction 1 as [|x l k _ IH|x y l|l k j _ IH1 _ IH2]; simpl.
  - done.
  - destruct (f x); simpl; lia.
  - destruct (f x), (f y); simpl; lia.
  - lia.
Qed.

Lemma suspicious_group_spec subs :
  suspicious_group subs = true ↔
  (20 < length (remove_dups subs))%nat
  ∨ (10 < length (List.filter looksRandom (remove_dups subs)))%nat.
Proof.
  unfold suspicious_group.
  assert (Hsize : size (list_to_set subs : gset string)
                  = length (remove_dups subs)).
  { unfold size, set_size. simpl. by rewrite elements_list_to_set_dups. }
  rewrite Hsize.
  rewrite (List_filter_length_perm looksRandom _ _
             (elements_list_to_set_dups subs)).
  destruct (20 <? length (remove_dups subs))%nat eqn:H20.
  - apply Nat.ltb_lt in H20. split; [by left|done].
  - apply Nat.ltb_ge in H20. rewrite Nat.ltb_lt. split; [by right|].
    intros [?|?]; [lia|done].
Qed.

(** X16: the third signature holds exactly when there are at least 30
    queries and, under some base domain, the queries bring more than 20
    distinct subdomains, or more than 10 distinct subdomains that look
    random. *)
Theorem random_subdomains_by_base queries :
  checkRandomSubdomains queries = true ↔
  (30 ≤ length queries)%nat
  ∧ ∃ base,
      (20 < length (remove_dups (subdomains_of base queries)))%nat
      ∨ (10 < length (List.filter looksRandom
                        (remove_dups (subdomains_of base queries))))%nat.
Proof.
  unfold checkRandomSubdomains.
  destruct (Z.of_nat (length queries) <? 30) eqn:Hlen.
  - apply Z.ltb_lt in Hlen. split; [done|]. intros [? _]. lia.
  - apply Z.ltb_ge in Hlen. rewrite existsb_exists. split.
    + intros [[base subs] [Hin Hsus]]. split; [lia|]. exists base.
      apply list_elem_of_In, elem_of_map_to_list in Hin.
      rewrite foldl_add_subdomain, lookup_empty in Hin. simpl in Hin.
      apply suspicious_group_spec.
      destruct (subdomains_of base queries); [done|].
      by injection Hin as <-.
    + intros [_ [base Hbase]]. apply suspicious_group_spec in Hbase.
      exists (base, subdomains_of base queries). split; [|done].
      apply list_elem_of_In, elem_of_map_to_list.
      rewrite foldl_add_subdomain, lookup_empty. simpl.
      destruct (subdomains_of base queries) eqn:Hsubs; [|done].
      by vm_compute in Hbase.
Qed.

(** * Further properties of the blocker *)

Lemma IsBlocked_result b ip now :
  result (IsBlocked ip now) b =
  match blockedIPs b !! ip with
  | Some e => Before now (BlockUntil e)
  | None => false
  end.
Proof.
  unfold result. rewrite IsBlocked_run.
  destruct (blockedIPs b !! ip) as [e|]; [|done].
  by destruct (Before now (BlockUntil e)).
Qed.

Lemma IsRateLimited_result b ip now :
  result (IsRateLimited ip now) b =
  match rateLimitedIPs b !! ip with
  | Some limitedUntil => Before now limitedUntil
  | None => false
  end.
Proof.
  unfold result. rewrite IsRateLimited_run.
  destruct (rateLimitedIPs b !! ip) as [u|]; [|done].
  by destruct (Before now u).
Qed.

Lemma IsBlocked_after b ip now :
  after (IsBlocked ip now) b =
  match blockedIPs b !! ip with
  | Some e =>
      if Before now (BlockUntil e) then b
      else with_blocked (delete ip (blockedIPs b)) b
  | None => b
  end.
Proof.
  unfold after. rewrite IsBlocked_run.
  destruct (blockedIPs b !! ip) as [e|]; [|done].
  by destruct (Before now (BlockUntil e)).
Qed.

Lemma IsRateLimited_after b ip now :
  after (IsRateLimited ip now) b =
  match rateLimitedIPs b !! ip with
  | Some limitedUntil =>
      if Before now limitedUntil then b
      else with_limited (delete ip (rateLimitedIPs b)) b
  | None => b
  end.
Proof.
  unfold after. rewrite IsRateLimited_run.
  destruct (rateLimitedIPs b !! ip) as [u|]; [|done].
  by destruct (Before now u).
Qed.

(** X17: after [BlockIP], whatever the blocker held, the source is
    reported blocked exactly at the instants before the instant of the
    call plus the block span; the answers for the other sources and
    the rate limits are as before. *)
Theorem block_then_lookup b ip reason clk ip' t :
  result (IsBlocked ip' t) (after (BlockIP ip reason clk) b)
    = (if decide (ip' = ip) then t <? at_until clk + blockSpan b
       else result (IsBlocked ip' t) b)
  ∧ rateLimitedIPs (after (BlockIP ip reason clk) b) = rateLimitedIPs b.
Proof.
  rewrite !IsBlocked_result, BlockIP_after. simpl. split; [|done].
  case_decide as Hip.
  - subst ip'. rewrite lookup_insert_eq.
    by destruct (blockedIPs b !! ip).
  - by rewrite lookup_insert_ne.
Qed.

(** X18: after [RateLimitIP] the source is reported rate limited
    exactly at the instants before the instant of the call plus the
    window; the other sources and the blocks are as before; and a
    second [RateLimitIP] replaces the first one: the window restarts,
    nothing is counted. *)
Theorem rate_limit_then_lookup b ip now ip' t now' :
  result (IsRateLimited ip' t) (after (RateLimitIP ip now) b)
    = (if decide (ip' = ip) then t <? now + rateLimitWindow b
       else result (IsRateLimited ip' t) b)
  ∧ blockedIPs (after (RateLimitIP ip now) b) = blockedIPs b
  ∧ after (RateLimitIP ip now') (after (RateLimitIP ip now) b)
    = after (RateLimitIP ip now') b.
Proof.
  rewrite !IsRateLimited_result, !RateLimitIP_after. simpl.
  split; [|split; [done|]].
  - case_decide as Hip.
    + subst ip'. by rewrite lookup_insert_eq.
    + by rewrite lookup_insert_ne.
  - unfold with_limited. simpl. by rewrite insert_insert_eq.
Qed.

(** X19: what a lookup purges does not show.  Under a clock that does
    not go back, the entries that [IsBlocked] and [IsRateLimited]
    delete on the way are entries for which every later lookup would
    answer false anyway: the answers of later lookups are the same as
    if the earlier lookup had not been made. *)
Theorem lookup_purge_is_transparent b ip t ip' t' :
  t <= t' →
  result (IsBlocked ip' t') (after (IsBlocked ip t) b)
    = result (IsBlocked ip' t') b
  ∧ result (IsRateLimited ip' t') (after (IsBlocked ip t) b)
    = result (IsRateLimited ip' t') b
  ∧ result (IsRateLimited ip' t') (after (IsRateLimited ip t) b)
    = result (IsRateLimited ip' t') b
  ∧ result (IsBlocked ip' t') (after (IsRateLimited ip t) b)
    = result (IsBlocked ip' t') b.
Proof.
  intros Htime.
  rewrite !IsBlocked_result, !IsRateLimited_result,
    IsBlocked_after, IsRateLimited_after.
  repeat split.
  - destruct (blockedIPs b !! ip) as [e|] eqn:He; [|done].
    destruct (Before t (BlockUntil e)) eqn:Hact; [done|]. simpl.
    destruct (decide (ip' = ip)) as [->|Hne].
    + rewrite lookup_delete_eq, He. symmetry.
      unfold Before in *. rewrite Z.ltb_ge in *. lia.
    + by rewrite lookup_delete_ne.
  - destruct (blockedIPs b !! ip) as [e|]; [|done].
    by destruct (Before t (BlockUntil e)).
  - destruct (rateLimitedIPs b !! ip) as [u|] eqn:Hu; [|done].
    destruct (Before t u) eqn:Hact; [done|]. simpl.
    destruct (decide (ip' = ip)) as [->|Hne].
    + rewrite lookup_delete_eq, Hu. symmetry.
      unfold Before in *. rewrite Z.ltb_ge in *. lia.
    + by rewrite lookup_delete_ne.
  - destruct (rateLimitedIPs b !! ip) as [u|]; [|done].
    by destruct (Before t u).
Qed.

Lemma lookup_purge_is_transparent_witness :
  301 * Second <= 400 * Second
  ∧ blockedIPs (after (IsBlocked "s" (301 * Second)) blocked_at_0) !! "s" = None
  ∧ result (IsBlocked "s" (400 * Second))
      (after (IsBlocked "s" (301 * Second)) blocked_at_0)
    = result (IsBlocked "s" (400 * Second)) blocked_at_0.
Proof.
  assert (Htime : 301 * Second <= 400 * Second) by (vm_compute; congruence).
  split; [exact Htime|]. split; [vm_compute; reflexivity|].
  exact (proj1 (lookup_purge_is_transparent blocked_at_0 "s" (301 * Second)
                  "s" (400 * Second) Htime)).
Defined.

(** X20: the sweep.  After [cleanup] at [t] an entry remains exactly
    when it was there and [t] is not after its expiry, and it remains
    unchanged; under a clock that does not go back no later lookup can
    tell that the sweep has run. *)
Theorem cleanup_is_transparent b t ip t' :
  t <= t' →
  blockedIPs (after (cleanup t) b) !! ip
    = (match blockedIPs b !! ip with
       | Some e => if BlockUntil e <? t then None else Some e
       | None => None
       end)
  ∧ rateLimitedIPs (after (cleanup t) b) !! ip
    = (match rateLimitedIPs b !! ip with
       | Some u => if u <? t then None else Some u
       | None => None
       end)
  ∧ result (IsBlocked ip t') (after (cleanup t) b)
    = result (IsBlocked ip t') b
  ∧ result (IsRateLimited ip t') (after (cleanup t) b)
    = result (IsRateLimited ip t') b.
Proof.
  intros Htime.
  assert (Hblocked : blockedIPs (after (cleanup t) b) !! ip
    = (match blockedIPs b !! ip with
       | Some e => if BlockUntil e <? t then None else Some e
       | None => None
       end)).
  { rewrite cleanup_after. simpl. unfold After.
    destruct (blockedIPs b !! ip) as [e|] eqn:He.
    - destruct (BlockUntil e <? t) eqn:Hexp.
      + apply map_lookup_filter_None. right. intros e' He'.
        rewrite He in He'. injection He' as <-. simpl. congruence.
      + by apply map_lookup_filter_Some.
    - apply map_lookup_filter_None. by left. }
  assert (Hlimited : rateLimitedIPs (after (cleanup t) b) !! ip
    = (match rateLimitedIPs b !! ip with
       | Some u => if u <? t then None else Some u
       | None => None
       end)).
  { rewrite cleanup_after. simpl. unfold After.
    destruct (rateLimitedIPs b !! ip) as [u|] eqn:Hu.
    - destruct (u <? t) eqn:Hexp.
      + apply map_lookup_filter_None. right. intros u' Hu'.
        rewrite Hu in Hu'. injection Hu' as <-. simpl. congruence.
      + by apply map_lookup_filter_Some.
    - apply map_lookup_filter_None. by left. }
  split; [exact Hblocked|]. split; [exact Hlimited|].
  rewrite !IsBlocked_result, !IsRateLimited_result, Hblocked, Hlimited.
  split.
  - destruct (blockedIPs b !! ip) as [e|]; [|done].
    destruct (BlockUntil e <? t) eqn:Hexp; [|done].
    symmetry. unfold Before. apply Z.ltb_lt in Hexp. apply Z.ltb_ge. lia.
  - destruct (rateLimitedIPs b !! ip) as [u|]; [|done].
    destruct (u <? t) eqn:Hexp; [|done].
    symmetry. unfold Before. apply Z.ltb_lt in Hexp. apply Z.ltb_ge. lia.
Qed.

Lemma cleanup_is_transparent_witness :
  301 * Second <= 400 * Second
  ∧ blockedIPs (after (cleanup (301 * Second)) blocked_at_0) !! "s" = None
  ∧ result (IsBlocked "s" (400 * Second))
      (after (cleanup (301 * Second)) blocked_at_0)
    = result (IsBlocked "s" (400 * Second)) blocked_at_0.
Proof.
  assert (Htime : 301 * Second <= 400 * Second) by (vm_compute; congruence).
  split; [exact Htime|]. split; [vm_compute; reflexivity|].
  exact (proj1 (proj2 (proj2
           (cleanup_is_transparent blocked_at_0 (301 * Second) "s"
              (400 * Second) Htime)))).
Defined.

Lemma reachable_keys dur t b :
  reachable dur t b →
  rateLimitWindow b = 30 * Second
  ∧ (∀ ip e, blockedIPs b !! ip = Some e → IP e = ip)
  ∧ (∀ ip u, rateLimitedIPs b !! ip = Some u → u <= t + 30 * Second).
Proof.
  induction 1 as [t|t t' b _ (IHw & IHk & IHu) Hle|t b ip _ (IHw & IHk & IHu)
                 |t b ip _ (IHw & IHk & IHu)
                 |t t' b ip reason _ (IHw & IHk & IHu)
                 |t b ip _ (IHw & IHk & IHu)
                 |t b ip _ (IHw & IHk & IHu)|t b _ (IHw & IHk & IHu)].
  - split; [by vm_compute|]. split; intros ip x; simpl;
      by rewrite lookup_empty.
  - split; [done|]. split; [done|]. intros ip u Hu.
    specialize (IHu ip u Hu). lia.
  - rewrite IsBlocked_after.
    destruct (blockedIPs b !! ip) as [e0|]; [|done].
    destruct (Before t (BlockUntil e0)); [done|].
    split; [done|]. split; [|done]. intros ip' e He. simpl in He.
    apply lookup_delete_Some in He as [_ He]. by eapply IHk.
  - rewrite IsRateLimited_after.
    destruct (rateLimitedIPs b !! ip) as [u0|]; [|done].
    destruct (Before t u0); [done|].
    split; [done|]. split; [done|]. intros ip' u Hu. simpl in Hu.
    apply lookup_delete_Some in Hu as [_ Hu]. by eapply IHu.
  - rewrite BlockIP_after. split; [done|]. split; [|done].
    intros ip' e. simpl.
    destruct (decide (ip = ip')) as [<-|Hne].
    + rewrite lookup_insert_eq. intros [= <-].
      destruct (blockedIPs b !! ip) as [e0|] eqn:He0; simpl; [|done].
      by eapply IHk.
    + rewrite lookup_insert_ne by done. apply IHk.
  - rewrite RateLimitIP_after. split; [done|]. split; [done|].
    intros ip' u. simpl.
    destruct (decide (ip = ip')) as [<-|Hne].
    + rewrite lookup_insert_eq. intros [= <-]. rewrite IHw. lia.
    + rewrite lookup_insert_ne by done. apply IHu.
  - rewrite UnblockIP_after. split; [done|]. simpl.
    split; intros ip' x Hx; apply lookup_delete_Some in Hx as [_ Hx];
      [by eapply IHk|by eapply IHu].
  - rewrite cleanup_after. split; [done|]. simpl.
    split; intros ip' x Hx; apply map_lookup_filter_Some in Hx as [Hx _];
      [by eapply IHk|by eapply IHu].
Qed.

(** X21: what every blocker reached under a clock that does not go back
    looks like.  Its duration is the one it was created with and its
    window is 30 seconds; the entry stored for a source names that
    source and expires no later than one block span after the latest
    reading of the clock; a rate limit ends no later than 30 seconds
    after it. *)
Theorem reachable_well_formed dur t b :
  reachable dur t b →
  blockDuration b = dur
  ∧ rateLimitWindow b = 30 * Second
  ∧ (∀ ip e, blockedIPs b !! ip = Some e →
       IP e = ip ∧ BlockUntil e <= t + blockSpan b)
  ∧ (∀ ip u, rateLimitedIPs b !! ip = Some u → u <= t + 30 * Second).
Proof.
  intros Hreach.
  destruct (reachable_inv _ _ _ Hreach) as [Hdur Hinv].
  destruct (reachable_keys _ _ _ Hreach) as (Hwin & Hkeys & Hlim).
  split; [done|]. split; [done|]. split; [|done].
  intros ip e He. split; [by apply Hkeys|]. by destruct (Hinv ip e He).
Qed.

Lemma reachable_well_formed_witness :
  reachable 300 0 blocked_at_0
  ∧ blockDuration blocked_at_0 = 300
  ∧ rateLimitWindow blocked_at_0 = 30 * Second.
Proof.
  assert (Hreach : reachable 300 0 blocked_at_0).
  { apply reach_RateLimitIP. apply (reach_BlockIP 300 0 0). apply reach_new. }
  split; [exact Hreach|].
  destruct (reachable_well_formed 300 0 blocked_at_0 Hreach)
    as (Hdur & Hwin & _).
  split; [exact Hdur|exact Hwin].
Defined.

Lemma GetAllBlockedIPs_run b now :
  run (GetAllBlockedIPs now) b =
  (List.filter (λ e, Before now (BlockUntil e))
     (snd <$> map_to_list (blockedIPs b)), b).
Proof. by step_through. Qed.

Lemma GetBlockStats_run b :
  run GetBlockStats b = (size (blockedIPs b), size (rateLimitedIPs b), b).
Proof. by step_through. Qed.

(** X22: the listing agrees with the lookup.  On a reachable blocker a
    source is reported blocked at an instant exactly when
    [GetAllBlockedIPs] at that instant lists an entry that names it;
    the listing changes nothing, and it is never longer than the
    count of blocked sources that [GetBlockStats] gives, which includes
    the expired entries not yet purged. *)
Theorem listing_matches_lookup dur t b ip now :
  reachable dur t b →
  (result (IsBlocked ip now) b = true ↔
   ∃ e, e ∈ result (GetAllBlockedIPs now) b ∧ IP e = ip)
  ∧ after (GetAllBlockedIPs now) b = b
  ∧ (length (result (GetAllBlockedIPs now) b) ≤ (result GetBlockStats b).1)%nat.
Proof.
  intros Hreach.
  destruct (reachable_keys _ _ _ Hreach) as (_ & Hkeys & _).
  unfold result, after. rewrite GetAllBlockedIPs_run, GetBlockStats_run.
  fold (result (IsBlocked ip now) b). rewrite IsBlocked_result. simpl.
  split; [|split; [done|]].
  - split.
    + destruct (blockedIPs b !! ip) as [e|] eqn:He; [|done].
      intros Hact. exists e. split; [|by apply Hkeys].
      apply list_elem_of_In, List.filter_In. split; [|done].
      apply list_elem_of_In, list_elem_of_fmap. exists (ip, e).
      split; [done|]. by apply elem_of_map_to_list.
    + intros (e & Hin & Hip).
      apply list_elem_of_In, List.filter_In in Hin as [Hin Hact].
      apply list_elem_of_In, list_elem_of_fmap in Hin as ([k e'] & -> & Hin).
      apply elem_of_map_to_list in Hin. simpl in *.
      rewrite (Hkeys k e' Hin) in Hip. subst k. by rewrite Hin.
  - etrans; [apply List.filter_length_le|].
    by rewrite length_fmap, length_map_to_list.
Qed.

Lemma listing_matches_lookup_witness :
  reachable 300 0 blocked_at_0
  ∧ result (IsBlocked "s" (299 * Second)) blocked_at_0 = true
  ∧ ∃ e, e ∈ result (GetAllBlockedIPs (299 * Second)) blocked_at_0
         ∧ IP e = "s".
Proof.
  assert (Hreach : reachable 300 0 blocked_at_0).
  { apply reach_RateLimitIP. apply (reach_BlockIP 300 0 0). apply reach_new. }
  assert (Hblocked : result (IsBlocked "s" (299 * Second)) blocked_at_0 = true)
    by (vm_compute; reflexivity).
  split; [exact Hreach|]. split; [exact Hblocked|].
  exact (proj1 (proj1 (listing_matches_lookup 300 0 blocked_at_0 "s"
                         (299 * Second) Hreach)) Hblocked).
Defined.

(** X23: where the maps are mutated.  [BlockIP], [RateLimitIP],
    [UnblockIP] and [cleanup] mutate them under the write lock only;
    [GetBlockedIP], [GetAllBlockedIPs] and [GetBlockStats] never mutate
    them; and each of the two lookups mutates its map, under the read
    lock, exactly when the source has an entry that has expired. *)
Theorem map_mutations_by_method b ip reason clk now :
  lock_discipline (events (BlockIP ip reason clk) b) = true
  ∧ lock_discipline (events (RateLimitIP ip now) b) = true
  ∧ lock_discipline (events (UnblockIP ip) b) = true
  ∧ lock_discipline (events (cleanup now) b) = true
  ∧ read_only (events (GetBlockedIP ip) b) = true
  ∧ read_only (events (GetAllBlockedIPs now) b) = true
  ∧ read_only (events GetBlockStats b) = true
  ∧ lock_discipline (events (IsBlocked ip now) b)
    = (match blockedIPs b !! ip with
       | Some e => Before now (BlockUntil e)
       | None => true
       end)
  ∧ lock_discipline (events (IsRateLimited ip now) b)
    = (match rateLimitedIPs b !! ip with
       | Some limitedUntil => Before now limitedUntil
       | None => true
       end).
Proof.
  split; [apply BlockIP_discipline|].
  split; [apply RateLimitIP_discipline|].
  split; [apply UnblockIP_discipline|].
  split; [apply cleanup_discipline|].
  split; [by step_through|].
  split; [by step_through|].
  split; [apply GetBlockStats_read_only|].
  rewrite IsBlocked_events, IsRateLimited_events. split.
  - destruct (blockedIPs b !! ip) as [e|]; [|done].
    by destruct (Before now (BlockUntil e)).
  - destruct (rateLimitedIPs b !! ip) as [u|]; [|done].
    by destruct (Before now u).
Qed.

(** * Properties of the request handler *)

Lemma run_pair {A} (m : M A) b : run m b = (result m b, after m b).
Proof. unfold result, after. by destruct (run m b). Qed.

Lemma Server_eta s :
  {| trafficMonitor := trafficMonitor s;
     ddosDetector := ddosDetector s;
     ipBlocker := ipBlocker s |} = s.
Proof. by destruct s. Qed.

Lemma IsBlocked_true_after b ip now :
  result (IsBlocked ip now) b = true → after (IsBlocked ip now) b = b.
Proof.
  rewrite IsBlocked_result, IsBlocked_after.
  destruct (blockedIPs b !! ip) as [e|]; [|done].
  by destruct (Before now (BlockUntil e)).
Qed.

Lemma lookups_keep_settings b ip t ip' t' :
  let b2 := after (IsRateLimited ip' t') (after (IsBlocked ip t) b) in
  blockDuration b2 = blockDuration b
  ∧ rateLimitWindow b2 = rateLimitWindow b.
Proof.
  simpl. rewrite IsRateLimited_after, IsBlocked_after.
  destruct (blockedIPs b !! ip) as [e|]; [destruct (Before t (BlockUntil e))|];
    simpl;
    (destruct (rateLimitedIPs b !! ip') as [u|];
       [destruct (Before t' u)|]); done.
Qed.

(** The handler by cases: the client is blocked; it is not and the
    message has no question; it is not and there is a first question. *)
Lemma handle_blocked T s clientIP questions forwarded clk :
  result (IsBlocked clientIP (at_blocked clk)) (ipBlocker s) = true →
  handleDNSRequest T s clientIP questions forwarded clk
  = (s, refused_at_the_door).
Proof.
  intros Hblocked. unfold handleDNSRequest.
  rewrite run_pair, Hblocked, (IsBlocked_true_after _ _ _ Hblocked).
  by rewrite Server_eta.
Qed.

Lemma handle_question T s clientIP question rest forwarded clk :
  result (IsBlocked clientIP (at_blocked clk)) (ipBlocker s) = false →
  let b1 := after (IsBlocked clientIP (at_blocked clk)) (ipBlocker s) in
  let b2 := after (IsRateLimited clientIP (at_limited clk)) b1 in
  let v := verdict T s clientIP question clk in
  let s' := (handleDNSRequest T s clientIP (question :: rest) forwarded clk).1 in
  let out := (handleDNSRequest T s clientIP (question :: rest) forwarded clk).2 in
  trafficMonitor s' = recorded_monitor T s clientIP question clk
  ∧ ddosDetector s' = ddosDetector s
  ∧ ipBlocker s'
    = (if IsAttack v then
         if ShouldBlock v
         then after (BlockIP clientIP (AttackType v) (at_block clk)) b2
         else after (RateLimitIP clientIP (at_rate_limit clk)) b2
       else b2)
  ∧ written out
    = (if IsAttack v && ShouldBlock v then [RcodeRefused]
       else forwarded.1)
  ∧ slept out
    = (if result (IsRateLimited clientIP (at_limited clk)) b1
       then 500 * Millisecond else 0).
Proof.
  intros Hopen. simpl. unfold handleDNSRequest, verdict, recorded_monitor.
  rewrite !run_pair, Hopen.
  destruct (AnalyzeTraffic _ _ _ _) as [v reports]. simpl.
  destruct (IsAttack v); [destruct (ShouldBlock v)|]; simpl;
    try done; by destruct forwarded.
Qed.

(** X24: a request of a blocked client, and a request without a
    question.  The first is answered REFUSED and leaves the server as
    it was: nothing is recorded, analysed or slept.  The second, from a
    client that is not blocked, is answered REFUSED as well, and the
    monitor and the detector's log are untouched. *)
Theorem refused_without_recording T s clientIP questions forwarded clk :
  (result (IsBlocked clientIP (at_blocked clk)) (ipBlocker s) = true →
   handleDNSRequest T s clientIP questions forwarded clk
   = (s, refused_at_the_door))
  ∧ (result (IsBlocked clientIP (at_blocked clk)) (ipBlocker s) = false →
     questions = [] →
     let s' := (handleDNSRequest T s clientIP questions forwarded clk).1 in
     let out := (handleDNSRequest T s clientIP questions forwarded clk).2 in
     written out = [RcodeRefused]
     ∧ detected out = []
     ∧ trafficMonitor s' = trafficMonitor s).
Proof.
  split; [apply handle_blocked|].
  intros Hopen ->. unfold handleDNSRequest.
  rewrite !run_pair, Hopen. done.
Qed.

Lemma refused_without_recording_witness :
  result (IsBlocked "10.0.0.3" (at_blocked (all_at 100))) (ipBlocker busy_server)
    = true
  ∧ handleDNSRequest type_names busy_server "10.0.0.3"
      [{| Name := "example.com."; Qtype := 1 |}] silent (all_at 100)
    = (busy_server, refused_at_the_door)
  ∧ written (handleDNSRequest type_names new_server "10.0.0.3" [] silent
               (all_at 0)).2
    = [RcodeRefused].
Proof.
  assert (Hblocked : result (IsBlocked "10.0.0.3" (at_blocked (all_at 100)))
                       (ipBlocker busy_server) = true)
    by (vm_compute; reflexivity).
  split; [exact Hblocked|]. split.
  - exact (proj1 (refused_without_recording type_names busy_server "10.0.0.3"
                    [{| Name := "example.com."; Qtype := 1 |}] silent
                    (all_at 100)) Hblocked).
  - exact (proj1 (proj2 (refused_without_recording type_names new_server
                           "10.0.0.3" [] silent (all_at 0))
                    ltac:(vm_compute; reflexivity) eq_refl)).
Defined.

(** X25: every request of a client that is not blocked and asks a
    question is recorded, whatever happens to it afterwards: the query,
    with the trailing dot of its name removed, is appended to the
    buffer of the client, from which the oldest query is dropped when
    it already holds 100; the records of the other clients are
    untouched. *)
Theorem admitted_request_is_recorded T s clientIP question rest forwarded clk :
  result (IsBlocked clientIP (at_blocked clk)) (ipBlocker s) = false →
  let s' := (handleDNSRequest T s clientIP (question :: rest) forwarded clk).1 in
  let old := buffer (trafficMonitor s) clientIP in
  buffer (trafficMonitor s') clientIP
    = (if (100 <=? length old)%nat then drop 1 old else old)
      ++ [query_asked T question clk]
  ∧ ∀ ip, ip ≠ clientIP →
      stats (trafficMonitor s') !! ip = stats (trafficMonitor s) !! ip.
Proof.
  intros Hopen. simpl.
  destruct (handle_question T s clientIP question rest forwarded clk Hopen)
    as (Htm & _). rewrite Htm. unfold recorded_monitor.
  pose proof (buffer_record (trafficMonitor s)
                {| req_ip := clientIP;
                   req_domain := TrimSuffix (Name question);
                   req_qtype := T (Qtype question);
                   req_clock := at_record clk |} clientIP) as Hbuf.
  unfold record in Hbuf. simpl in Hbuf.
  rewrite decide_True in Hbuf by done. split; [exact Hbuf|].
  intros ip Hip. unfold RecordRequest. simpl.
  by rewrite lookup_insert_ne.
Qed.

Lemma admitted_request_is_recorded_witness :
  result (IsBlocked "10.0.0.3" (at_blocked (all_at 0))) (ipBlocker new_server)
    = false
  ∧ buffer (trafficMonitor
              (handleDNSRequest type_names new_server "10.0.0.3"
                 [{| Name := "example.com."; Qtype := 1 |}] silent (all_at 0)).1)
      "10.0.0.3"
    = [{| Domain := "example.com"; QueryType := "A"; Timestamp := 0 |}].
Proof.
  assert (Hopen : result (IsBlocked "10.0.0.3" (at_blocked (all_at 0)))
                    (ipBlocker new_server) = false)
    by (vm_compute; reflexivity).
  split; [exact Hopen|].
  rewrite (proj1 (admitted_request_is_recorded type_names new_server
                    "10.0.0.3" {| Name := "example.com."; Qtype := 1 |} []
                    silent (all_at 0) Hopen)).
  vm_compute. reflexivity.
Defined.

(** X26: a block takes effect.  When the verdict on a request asks for
    a block, the request is answered REFUSED, and every later request
    of the client that reads the clock before the instant of the block
    plus the block span is refused at the door, the server staying as
    the block left it. *)
Theorem blocked_client_stays_out T s clientIP question rest forwarded clk
    questions' forwarded' clk' :
  result (IsBlocked clientIP (at_blocked clk)) (ipBlocker s) = false →
  ShouldBlock (verdict T s clientIP question clk) = true →
  at_blocked clk' < at_until (at_block clk) + blockSpan (ipBlocker s) →
  let s' := (handleDNSRequest T s clientIP (question :: rest) forwarded clk).1 in
  let out := (handleDNSRequest T s clientIP (question :: rest) forwarded clk).2 in
  written out = [RcodeRefused]
  ∧ handleDNSRequest T s' clientIP questions' forwarded' clk'
    = (s', refused_at_the_door).
Proof.
  intros Hopen Hblock Hsoon. simpl.
  destruct (handle_question T s clientIP question rest forwarded clk Hopen)
    as (_ & _ & Hb & Hw & _).
  assert (Hattack : IsAttack (verdict T s clientIP question clk) = true).
  { unfold verdict in *. by apply should_block_is_attack. }
  rewrite Hattack, Hblock in Hb, Hw. split; [exact Hw|].
  apply handle_blocked. rewrite Hb, IsBlocked_result, BlockIP_after. simpl.
  rewrite lookup_insert_eq.
  destruct (lookups_keep_settings (ipBlocker s) clientIP (at_blocked clk)
              clientIP (at_limited clk)) as [Hdur _].
  unfold blockSpan in *. simpl in Hdur. rewrite Hdur.
  unfold Before.
  destruct (blockedIPs _ !! clientIP); simpl; apply Z.ltb_lt; lia.
Qed.

Lemma blocked_client_stays_out_witness :
  let s := after_requests 19 new_server "10.0.0.3" "example.com." 0 in
  let question := {| Name := "example.com."; Qtype := 1 |} in
  result (IsBlocked "10.0.0.3" (at_blocked (all_at 19))) (ipBlocker s) = false
  ∧ ShouldBlock (verdict type_names s "10.0.0.3" question (all_at 19)) = true
  ∧ handleDNSRequest type_names
      (handleDNSRequest type_names s "10.0.0.3" [question] silent (all_at 19)).1
      "10.0.0.3" [question] silent (all_at 100)
    = ((handleDNSRequest type_names s "10.0.0.3" [question] silent (all_at 19)).1,
       refused_at_the_door).
Proof.
  intros s question.
  assert (Hopen : result (IsBlocked "10.0.0.3" (at_blocked (all_at 19)))
                    (ipBlocker s) = false) by (vm_compute; reflexivity).
  assert (Hblock : ShouldBlock (verdict type_names s "10.0.0.3" question
                                  (all_at 19)) = true)
    by (vm_compute; reflexivity).
  split; [exact Hopen|]. split; [exact Hblock|].
  exact (proj2 (blocked_client_stays_out type_names s "10.0.0.3" question []
                  silent (all_at 19) [question] silent (all_at 100) Hopen Hblock
                  ltac:(vm_compute; reflexivity))).
Defined.

Lemma handle_slept T s clientIP questions forwarded clk :
  result (IsBlocked clientIP (at_blocked clk)) (ipBlocker s) = false →
  slept (handleDNSRequest T s clientIP questions forwarded clk).2
  = (if result (IsRateLimited clientIP (at_limited clk))
          (after (IsBlocked clientIP (at_blocked clk)) (ipBlocker s))
     then 500 * Millisecond else 0).
Proof.
  intros Hopen. destruct questions as [|question rest].
  - unfold handleDNSRequest. rewrite !run_pair, Hopen. done.
  - by destruct (handle_question T s clientIP question rest forwarded clk
                   Hopen) as (_ & _ & _ & _ & Hs).
Qed.

(** X27: a rate limit takes effect.  When the verdict on a request is an
    attack that does not ask for a block, every later request of the
    client that is not blocked and reads the clock before the instant of
    the rate limit plus the window is delayed by 500 milliseconds. *)
Theorem limited_client_is_slowed T s clientIP question rest forwarded clk
    questions' forwarded' clk' :
  result (IsBlocked clientIP (at_blocked clk)) (ipBlocker s) = false →
  IsAttack (verdict T s clientIP question clk) = true →
  ShouldBlock (verdict T s clientIP question clk) = false →
  at_limited clk' < at_rate_limit clk + rateLimitWindow (ipBlocker s) →
  let s' := (handleDNSRequest T s clientIP (question :: rest) forwarded clk).1 in
  result (IsBlocked clientIP (at_blocked clk')) (ipBlocker s') = false →
  slept (handleDNSRequest T s' clientIP questions' forwarded' clk').2
  = 500 * Millisecond.
Proof.
  intros Hopen Hattack Hblock Hsoon. simpl.
  destruct (handle_question T s clientIP question rest forwarded clk Hopen)
    as (_ & _ & Hb & _).
  rewrite Hattack, Hblock in Hb.
  intros Hopen'. rewrite (handle_slept _ _ _ _ _ _ Hopen').
  rewrite Hb, IsRateLimited_result, IsBlocked_after, RateLimitIP_after.
  destruct (lookups_keep_settings (ipBlocker s) clientIP (at_blocked clk)
              clientIP (at_limited clk)) as [_ Hwin].
  simpl in Hwin.
  set (b2 := after (IsRateLimited clientIP (at_limited clk))
               (after (IsBlocked clientIP (at_blocked clk)) (ipBlocker s)))
    in *.
  assert (Hbefore : Before (at_limited clk')
                      (at_rate_limit clk + rateLimitWindow b2) = true)
    by (unfold Before; apply Z.ltb_lt; lia).
  simpl.
  destruct (blockedIPs b2 !! clientIP) as [e|];
    [destruct (Before (at_blocked clk') (BlockUntil e))|];
    simpl; rewrite lookup_insert_eq; by rewrite Hbefore.
Qed.

Lemma limited_client_is_slowed_witness :
  let s := after_requests 10 strict_server "10.0.0.4" "example.com." 0 in
  let question := {| Name := "example.com."; Qtype := 1 |} in
  let s' := (handleDNSRequest type_names s "10.0.0.4" [question] silent
               (all_at 10)).1 in
  result (IsBlocked "10.0.0.4" (at_blocked (all_at 10))) (ipBlocker s) = false
  ∧ AttackType (verdict type_names s "10.0.0.4" question (all_at 10))
    = "high_request_rate"
  ∧ ShouldBlock (verdict type_names s "10.0.0.4" question (all_at 10)) = false
  ∧ slept (handleDNSRequest type_names s' "10.0.0.4" [question] silent
             (all_at 11)).2
    = 500 * Millisecond.
Proof.
  intros s question s'.
  assert (Hopen : result (IsBlocked "10.0.0.4" (at_blocked (all_at 10)))
                    (ipBlocker s) = false) by (vm_compute; reflexivity).
  assert (Hblock : ShouldBlock (verdict type_names s "10.0.0.4" question
                                  (all_at 10)) = false)
    by (vm_compute; reflexivity).
  split; [exact Hopen|]. split; [vm_compute; reflexivity|].
  split; [exact Hblock|].
  exact (limited_client_is_slowed type_names s "10.0.0.4" question []
           silent (all_at 10) [question] silent (all_at 11) Hopen
           ltac:(vm_compute; reflexivity) Hblock
           ltac:(vm_compute; reflexivity)
           ltac:(vm_compute; reflexivity)).
Defined.

(** X28: [TrimSuffix] removes the dot that ends a fully qualified name
    and nothing else: a name followed by a dot gives the name, and any
    string either comes back unchanged or is its result followed by a
    dot. *)
Theorem trim_suffix_removes_one_dot s :
  TrimSuffix (s +:+ ".") = s
  ∧ (TrimSuffix s = s ∨ s = TrimSuffix s +:+ ".").
Proof.
  split.
  - induction s as [|c s IH]; [done|].
    rewrite append_cons. cbn [TrimSuffix]. rewrite IH.
    destruct s; done.
  - induction s as [|c s IH]; [by left|].
    destruct s as [|c' s].
    + simpl. destruct (Ascii.eqb c ".") eqn:Hc; [|by left].
      apply Ascii.eqb_eq in Hc as ->. by right.
    + change (TrimSuffix (String c (String c' s)))
        with (String c (TrimSuffix (String c' s))).
      destruct IH as [IH|IH].
      * left. by rewrite IH.
      * right. rewrite append_cons. by rewrite <- IH.
Qed.

(** * Twenty requests for one name *)

Lemma recent_queries_length tm ip w now :
  (length (GetRecentQueries tm ip w now) ≤ length (buffer tm ip))%nat.
Proof.
  unfold GetRecentQueries, buffer.
  destruct (stats tm !! ip) as [st|]; [|done].
  rewrite collect_after_spec. apply List.filter_length_le.
Qed.

(** A source with fewer than 20 retained queries, and no more than the
    limit, is no attack. *)
Lemma analyze_quiet d ip tm clk :
  (length (buffer tm ip) < 20)%nat →
  Z.of_nat (length (buffer tm ip)) <= rateLimit d →
  AnalyzeTraffic d ip tm clk = (no_attack, []).
Proof.
  intros Hfew Hlimit. unfold AnalyzeTraffic.
  pose proof (recent_count_le_buffer tm ip (1 * Minute) (at_count clk)).
  replace (rateLimit d <? _) with false by (symmetry; apply Z.ltb_ge; lia).
  pose proof (recent_queries_length tm ip (1 * Minute) (at_queries clk)) as Hn.
  set (queries := GetRecentQueries tm ip (1 * Minute) (at_queries clk)) in *.
  unfold checkRepeatedQueries, checkRandomSubdomains, checkQueryBurst.
  replace (Z.of_nat (length queries) <? 20) with true
    by (symmetry; apply Z.ltb_lt; lia).
  replace (Z.of_nat (length queries) <? 30) with true
    by (symmetry; apply Z.ltb_lt; lia).
  pose proof (count_after_le (Add (at_burst clk) (wrap64 (-10 * Second)))
                queries).
  destruct (Z.of_nat (length queries) <? 10); [done|].
  replace (50 <? _) with false by (symmetry; apply Z.ltb_ge; lia).
  done.
Qed.

Lemma lookups_on_new_blocker dur ip t :
  run (IsBlocked ip t) (NewIPBlocker dur) = (false, NewIPBlocker dur)
  ∧ run (IsRateLimited ip t) (NewIPBlocker dur) = (false, NewIPBlocker dur).
Proof.
  rewrite IsBlocked_run, IsRateLimited_run. simpl.
  by rewrite !lookup_empty.
Qed.

Lemma length_recorded_same T ip question calls :
  recorded ip (request_of T ip question <$> calls)
  = query_of <$> (request_of T ip question <$> calls).
Proof.
  unfold recorded. f_equal.
  induction calls as [|call calls IH]; [done|].
  rewrite fmap_cons, filter_cons, decide_True by done. by rewrite IH.
Qed.

(** The first 19 requests of a client on a new server whose limit is at
    least 19 are all recorded and change nothing else. *)
Lemma serve_quiet T limit dur ip question calls :
  (length calls ≤ 19)%nat → 19 <= limit →
  serve_all T ip question (server_of limit dur) calls
  = {| trafficMonitor :=
         record_all NewTrafficMonitor (request_of T ip question <$> calls);
       ddosDetector := NewDDoSDetector limit;
       ipBlocker := NewIPBlocker dur |}.
Proof.
  intros Hlen Hlimit.
  induction calls as [|call calls IH] using rev_ind; [done|].
  rewrite length_app in Hlen. simpl in Hlen.
  unfold serve_all in *. rewrite foldl_app. cbn [foldl].
  rewrite IH by lia. unfold handleDNSRequest. cbn [ipBlocker].
  destruct (lookups_on_new_blocker dur ip (at_blocked call.2)) as [-> _].
  destruct (lookups_on_new_blocker dur ip (at_limited call.2)) as [_ ->].
  cbn [trafficMonitor ddosDetector].
  change (RecordRequest ?tm ip (TrimSuffix (Name question))
            (T (Qtype question)) (at_record call.2))
    with (record tm (request_of T ip question call)).
  assert (Hrec : record (record_all NewTrafficMonitor
                           (request_of T ip question <$> calls))
                   (request_of T ip question call)
                 = record_all NewTrafficMonitor
                     (request_of T ip question <$> calls ++ [call])).
  { unfold record_all. by rewrite fmap_app, foldl_app. }
  rewrite Hrec.
  rewrite analyze_quiet; [by destruct call.1| |].
  - rewrite buffer_record_all, newest_length, length_recorded_same,
      !length_fmap, length_app. simpl. lia.
  - rewrite buffer_record_all, newest_length, length_recorded_same,
      !length_fmap, length_app. simpl. simpl in Hlimit. lia.
Qed.

(** X29: twenty requests for one name.  On a new server whose limit is
    at least 20, the first 19 requests of a client for one name are only
    recorded; when the 20th is analysed while all 20 are less than a
    minute old, it is reported as [repeated_queries] and answered
    REFUSED, and the client gets its first block, whatever the clock
    did otherwise. *)
Theorem twentieth_request_for_a_name_blocks T limit dur ip question calls
    forwarded clk :
  20 <= limit →
  length calls = 19%nat →
  Forall (λ call, at_queries (at_analyze clk) - Minute
                  < at_query (at_record call.2))
         (calls ++ [(forwarded, clk)]) →
  let s := serve_all T ip question (server_of limit dur) calls in
  let s' := (handleDNSRequest T s ip [question] forwarded clk).1 in
  let out := (handleDNSRequest T s ip [question] forwarded clk).2 in
  ipBlocker s = NewIPBlocker dur
  ∧ AttackType (verdict T s ip question clk) = "repeated_queries"
  ∧ written out = [RcodeRefused]
  ∧ blockedIPs (ipBlocker s') !! ip
    = Some {| IP := ip;
              BlockedAt := at_since (at_block clk);
              BlockUntil := at_until (at_block clk) + wrap64 (dur * Second);
              Reason := "repeated_queries";
              BlockCount := 1 |}.
Proof.
  intros Hlimit Hlen Hfresh. simpl.
  rewrite serve_quiet by lia. split; [done|].
  set (s := {| trafficMonitor := _ |}).
  assert (Hopen : result (IsBlocked ip (at_blocked clk)) (ipBlocker s) = false).
  { unfold result, s. cbn [ipBlocker].
    by destruct (lookups_on_new_blocker dur ip (at_blocked clk)) as [-> _]. }
  set (all := request_of T ip question <$> calls ++ [(forwarded, clk)]).
  assert (Htm : recorded_monitor T s ip question clk
                = record_all NewTrafficMonitor all).
  { unfold recorded_monitor, all, record_all. rewrite fmap_app, foldl_app.
    done. }
  assert (Hall : length all = 20%nat)
    by (unfold all; rewrite length_fmap, length_app, Hlen; done).
  assert (Hbuf : buffer (record_all NewTrafficMonitor all) ip
                 = query_of <$> all).
  { rewrite buffer_record_all. unfold all at 1.
    rewrite length_recorded_same. fold all. unfold newest.
    rewrite length_fmap, Hall. done. }
  assert (Hqueries : GetRecentQueries (record_all NewTrafficMonitor all) ip
                       (1 * Minute) (at_queries (at_analyze clk))
                     = query_of <$> all).
  { rewrite recent_queries_buffer by (vm_compute; split; congruence).
    rewrite Hbuf. apply forallb_filter_id. apply forallb_forall.
    intros q Hq. apply list_elem_of_In, list_elem_of_fmap in Hq
      as (r & -> & Hr).
    unfold all in Hr. apply list_elem_of_fmap in Hr as (call & -> & Hcall).
    rewrite Forall_forall in Hfresh. specialize (Hfresh call Hcall).
    unfold after_cutoff. simpl. apply Z.ltb_lt.
    change (1 * Minute) with Minute. lia. }
  assert (Hverdict : verdict T s ip question clk
                     = {| IsAttack := true;
                          AttackType := "repeated_queries";
                          Severity := "medium";
                          Description :=
                            "Repeated queries to same domain detected";
                          ShouldBlock := true |}).
  { unfold verdict. rewrite Htm. unfold AnalyzeTraffic.
    pose proof (recent_count_le_buffer (record_all NewTrafficMonitor all) ip
                  (1 * Minute) (at_count (at_analyze clk))) as Hcount.
    rewrite Hbuf, length_fmap, Hall in Hcount.
    replace (rateLimit (ddosDetector s) <? _) with false
      by (symmetry; apply Z.ltb_ge; simpl; lia).
    rewrite Hqueries.
    replace (checkRepeatedQueries (query_of <$> all)) with true; [done|].
    symmetry. apply checkRepeatedQueries_spec.
    rewrite length_fmap, Hall. split; [done|].
    exists (TrimSuffix (Name question)).
    assert (Hocc : occurrences (TrimSuffix (Name question)) (query_of <$> all)
                   = 20%nat).
    { rewrite <- Hall. unfold occurrences, all.
      rewrite <- (length_fmap query_of), <- list_fmap_compose. f_equal.
      generalize (calls ++ [(forwarded, clk)]). intros l.
      induction l as [|call l IH]; [done|].
      rewrite !fmap_cons, filter_cons, decide_True by done. by rewrite IH. }
    rewrite Hocc. lia. }
  destruct (handle_question T s ip question [] forwarded clk Hopen)
    as (_ & _ & Hb & Hw & _).
  rewrite Hverdict in Hb, Hw. simpl in Hb, Hw.
  split; [by rewrite Hverdict|]. split; [exact Hw|].
  rewrite Hb, BlockIP_after.
  destruct (lookups_on_new_blocker dur ip (at_blocked clk)) as [Hb1 _].
  destruct (lookups_on_new_blocker dur ip (at_limited clk)) as [_ Hb2].
  unfold after. rewrite Hb1. simpl. rewrite Hb2. simpl.
  rewrite lookup_insert_eq, lookup_empty. done.
Qed.

Lemma twentieth_request_for_a_name_blocks_witness :
  let question := {| Name := "example.com."; Qtype := 1 |} in
  let s := serve_all type_names "10.0.0.3" question (server_of 100 300)
             nineteen_calls in
  20 <= 100
  ∧ length nineteen_calls = 19%nat
  ∧ written (handleDNSRequest type_names s "10.0.0.3" [question] silent
               (all_at 19)).2
    = [RcodeRefused].
Proof.
  intros question s.
  assert (Hlimit : 20 <= 100) by lia.
  assert (Hlen : length nineteen_calls = 19%nat) by reflexivity.
  split; [exact Hlimit|]. split; [exact Hlen|].
  refine (proj1 (proj2 (proj2
            (twentieth_request_for_a_name_blocks type_names 100 300 "10.0.0.3"
               question nineteen_calls silent (all_at 19) Hlimit Hlen _)))).
  repeat (constructor; [vm_compute; reflexivity|]). constructor.
Defined.
